(** * SmartCAPI offline-first synchronisation engine

    A shallow embedding of the client-side synchronisation code:

    - [LocalDb]   the IndexedDB record store (localDb.js, and the copy of
                  its two functions inside the service worker);
    - [Sync]      [syncWithServer], in its two versions (syncService.js and
                  the service worker);
    - [AutoSync]  the [AutoSyncManager] class of networkMonitor.js;
    - [Router]    the service worker's install / activate / fetch listeners.

    Promises are modelled by their settled value ([Resolved] / [Rejected]),
    IndexedDB and the Cache API by finite maps, the network by an oracle
    argument, and the event loop of the auto-sync manager by a step function
    over events. *)

From Stdlib Require Import ZArith QArith String Ascii List Lia.
From stdpp Require Import base option list gmap strings fin_maps.

Local Open Scope string_scope.

(** ** Settled promises *)

(** Rejection reasons that occur in the embedded code. *)
Inductive error :=
  | ErrReason (msg : string)      (* reject("..."): a bare string reason *)
  | ErrServerResponded (st : Z)   (* new Error(`Server responded with ${st}`) *)
  | ErrFetch                      (* fetch() rejected: transport failure *)
  | ErrBody.                      (* response.json() rejected, or data.results
                                     is not an array *)

Inductive promise (A : Type) :=
  | Resolved (a : A)
  | Rejected (e : error).
Arguments Resolved {A} a.
Arguments Rejected {A} e.

(** The two copies of the storage and sync functions. *)
Inductive variant :=
  | Client          (* src/services/localDb.js, src/services/syncService.js *)
  | ServiceWorker.  (* the service worker script *)

(** ** The local record store *)

Module LocalDb.

(** A transcript record, as built by [saveTranscript]. [updated_at] is a
    client clock reading; the code embedded here only copies it. *)
Record record := mkRecord {
  uuid : string;
  speaker_id : string;
  text : string;
  updated_at : Z;
  sync_status : string
}.

(** The object store "transcripts" is created with [keyPath: "uuid"]: the
    key of a stored record is its own [uuid] property.  A store is therefore
    a finite map from uuid to the other properties of the record.  The
    database is taken to open and its requests to succeed: the [onerror]
    handlers, which only forward the engine's error, are not modelled. *)
Record row := mkRow {
  row_speaker_id : string;
  row_text : string;
  row_updated_at : Z;
  row_sync_status : string
}.

Abbreviation store := (gmap string row).

Definition row_of (r : record) : row :=
  mkRow (speaker_id r) (text r) (updated_at r) (sync_status r).

Definition record_of (k : string) (w : row) : record :=
  mkRecord k (row_speaker_id w) (row_text w) (row_updated_at w)
           (row_sync_status w).

(** [store.get(uuid)] *)
Definition store_get (k : string) (s : store) : option record :=
  record_of k <$> s !! k.

(** [store.put(record)] *)
Definition store_put (r : record) (s : store) : store :=
  <[uuid r := row_of r]> s.

(** [index.getAll("pending")] on the index over [sync_status]. *)
Definition index_getAll (status : string) (s : store) : list record :=
  filter (fun r => sync_status r = status)
         ((fun kw => record_of (fst kw) (snd kw)) <$> map_to_list s).

(** [saveTranscript(speaker_id, text)]; the fresh uuid and the clock
    reading are supplied by the host. *)
Definition saveTranscript (fresh_uuid : string) (now : Z)
    (speaker text : string) (s : store) : store :=
  store_put (mkRecord fresh_uuid speaker text now "pending") s.

(** [getPendingTranscripts()] *)
Definition getPendingTranscripts (s : store) : list record :=
  index_getAll "pending" s.

(** [record.sync_status = status] *)
Definition set_sync_status (r : record) (status : string) : record :=
  mkRecord (uuid r) (speaker_id r) (text r) (updated_at r) status.

(** The reason [updateTranscriptStatus] rejects with when the record is
    missing: "Record not found." in localDb.js, and
    `Record not found: ${uuid}` in the service worker. *)
Definition not_found (v : variant) (k : string) : error :=
  match v with
  | Client => ErrReason "Record not found."
  | ServiceWorker => ErrReason ("Record not found: " ++ k)
  end.

(** [updateTranscriptStatus(uuid, status)]: the store it leaves and how its
    promise settles. *)
Definition updateTranscriptStatus (v : variant) (k status : string)
    (s : store) : store * promise unit :=
  match store_get k s with
  | Some r => (store_put (set_sync_status r status) s, Resolved tt)
  | None => (s, Rejected (not_found v k))
  end.

End LocalDb.

(** ** The sync orchestrator *)

Module Sync.
Import LocalDb.

(** One entry of [data.results] in the server's answer. *)
Record result := mkResult {
  res_uuid : string;
  res_status : string
}.

(** What [fetch(".../api/sync", {method: "POST", ...})] settles to: a
    rejection (transport failure), or a response with its HTTP status and,
    when [response.json()] yields an object whose [results] is an array, that
    array. *)
Inductive fetched :=
  | FetchRejected
  | FetchResponse (status : Z) (results : option (list result)).

(** [response.ok]: the status is in the range 200-299. *)
Definition ok (status : Z) : bool :=
  ((200 <=? status) && (status <=? 299))%Z.

(** The network: the answer to a POST of [{ items: pendingItems }]. *)
Definition network := list record -> fetched.

(** The body of the callback given to [data.results.map]: the status to
    store for one result, [None] when the callback returns [undefined]
    without calling [updateTranscriptStatus].

    syncService.js:
      if (status === 'created' || status === 'updated') -> 'synced'
      else if (status === 'conflict')                   -> 'conflict'
    service worker:
      (status === 'created' || status === 'updated') ? 'synced' : 'conflict' *)
Definition newStatus (v : variant) (r : result) : option string :=
  match v with
  | Client =>
      if (res_status r =? "created") || (res_status r =? "updated")
      then Some "synced"
      else if res_status r =? "conflict" then Some "conflict"
      else None
  | ServiceWorker =>
      Some (if (res_status r =? "created") || (res_status r =? "updated")
            then "synced" else "conflict")
  end.

(** [data.results.map(...)] followed by [await Promise.all(promises)]: every
    update is issued, in the order of [results], whether or not an earlier
    one rejects; [Promise.all] rejects with the first rejection. The
    accumulator [failed] is that first rejection, if any. *)
Fixpoint applyResults (v : variant) (rs : list result) (s : store)
    (failed : option error) : store * option error :=
  match rs with
  | [] => (s, failed)
  | r :: rs' =>
      match newStatus v r with
      | None => applyResults v rs' s failed
      | Some st =>
          match updateTranscriptStatus v (res_uuid r) st s with
          | (s', Resolved _) => applyResults v rs' s' failed
          | (s', Rejected e) =>
              applyResults v rs' s'
                (match failed with Some e0 => Some e0 | None => Some e end)
          end
      end
  end.

(** The [try] block of [syncWithServer], from the settled fetch on. *)
Definition trySync (v : variant) (f : fetched) (s : store)
    : store * option error :=
  match f with
  | FetchRejected => (s, Some ErrFetch)
  | FetchResponse status body =>
      if negb (ok status) then (s, Some (ErrServerResponded status))
      else match body with
           | None => (s, Some ErrBody)
           | Some rs => applyResults v rs s None
           end
  end.

(** The [catch] block: syncService.js logs and returns; the service worker
    logs and rethrows. *)
Definition catchSync (v : variant) (e : error) : promise unit :=
  match v with
  | Client => Resolved tt
  | ServiceWorker => Rejected e
  end.

(** An execution of [syncWithServer]: the store it leaves, the batches it
    posted to the server, and how its promise settles. *)
Record run := mkRun {
  store_after : store;
  posted : list (list record);
  settled : promise unit
}.

(** [syncWithServer()] *)
Definition syncWithServer (v : variant) (net : network) (s : store) : run :=
  let pendingItems := getPendingTranscripts s in
  if (length pendingItems =? 0)%nat then mkRun s [] (Resolved tt)
  else
    let '(s', thrown) := trySync v (net pendingItems) s in
    mkRun s' [pendingItems]
      (match thrown with
       | None => Resolved tt
       | Some e => catchSync v e
       end).

End Sync.

(** ** The auto-sync manager *)

Module AutoSync.

(** The [options] argument of the constructor; a property that is absent
    is [None]. The constructor does not check what it is given:
    [maxRetries] is whatever number the caller passes, negative and
    fractional values included. *)
Record options := mkOptions {
  opt_retryInterval : option Z;   (* milliseconds *)
  opt_maxRetries : option Q
}.

(** [x || d] on an optional number: [d] when [x] is undefined or zero,
    [x] itself otherwise. *)
Definition or_default (x : option Q) (d : Q) : Q :=
  match x with
  | Some q => if Qeq_bool q 0 then d else q
  | None => d
  end.

Definition or_default_ms (x : option Z) (d : Z) : Z :=
  match x with
  | Some 0%Z | None => d
  | Some ms => ms
  end.

(** The manager together with the part of the host it talks to.

    [retryInterval], [maxRetries], [retryCount] and [retryTimer] are the
    fields of the object. [onLine] is [navigator.onLine]; [timeouts] holds
    the handles of the [setTimeout] calls of the manager that have neither
    fired nor been cleared; [next_handle] is the handle the next
    [setTimeout] returns (handles are positive integers); [awaiting]
    counts the calls of [attemptSync] suspended at
    [await this.syncCallback()]. *)
Record world := mkWorld {
  retryInterval : Z;
  maxRetries : Q;
  retryCount : nat;
  retryTimer : option positive;
  onLine : bool;
  timeouts : gset positive;
  next_handle : positive;
  awaiting : nat
}.

Definition set_retryCount (n : nat) (w : world) : world :=
  mkWorld (retryInterval w) (maxRetries w) n (retryTimer w)
          (onLine w) (timeouts w) (next_handle w) (awaiting w).

Definition set_onLine (b : bool) (w : world) : world :=
  mkWorld (retryInterval w) (maxRetries w) (retryCount w) (retryTimer w)
          b (timeouts w) (next_handle w) (awaiting w).

Definition set_awaiting (n : nat) (w : world) : world :=
  mkWorld (retryInterval w) (maxRetries w) (retryCount w) (retryTimer w)
          (onLine w) (timeouts w) (next_handle w) n.

Definition set_timeouts (ts : gset positive) (w : world) : world :=
  mkWorld (retryInterval w) (maxRetries w) (retryCount w) (retryTimer w)
          (onLine w) ts (next_handle w) (awaiting w).

(** What the manager does that can be observed from outside. *)
Inductive action :=
  | SyncPostponed                  (* "Sync postponed: offline" *)
  | CallbackCalled                 (* this.syncCallback() *)
  | SyncSuccessful                 (* "Auto-sync successful" *)
  | MaxRetriesReached              (* "Max retry attempts reached" *)
  | RetryScheduled (n : nat) (delay : Z). (* setTimeout(..., delay), retry n *)

(** [new AutoSyncManager(syncCallback, options)] in a host whose
    [navigator.onLine] is [online]. *)
Definition construct (opts : options) (online : bool) : world :=
  mkWorld (or_default_ms (opt_retryInterval opts) 30000%Z)
          (or_default (opt_maxRetries opts) 5)
          0 None online ∅ 1%positive 0.

(** [clearRetryTimer()] *)
Definition clearRetryTimer (w : world) : world :=
  match retryTimer w with
  | Some t =>
      mkWorld (retryInterval w) (maxRetries w) (retryCount w) None
              (onLine w) (timeouts w ∖ {[t]}) (next_handle w) (awaiting w)
  | None => w
  end.

(** The counter as a number. *)
Definition num (n : nat) : Q := inject_Z (Z.of_nat n).

(** [scheduleRetry()]; its guard is [this.retryCount >= this.maxRetries]. *)
Definition scheduleRetry (w : world) : world * list action :=
  if Qle_bool (maxRetries w) (num (retryCount w)) then
    (set_retryCount 0 w, [MaxRetriesReached])
  else
    let w1 := clearRetryTimer (set_retryCount (S (retryCount w)) w) in
    let t := next_handle w1 in
    (mkWorld (retryInterval w1) (maxRetries w1) (retryCount w1) (Some t)
             (onLine w1) ({[t]} ∪ timeouts w1) (Pos.succ t) (awaiting w1),
     [RetryScheduled (retryCount w1) (retryInterval w1)]).

(** [attemptSync()], up to the [await]: the offline guard, then the call of
    the callback. *)
Definition attemptSync (w : world) : world * list action :=
  if negb (onLine w) then (w, [SyncPostponed])
  else (set_awaiting (S (awaiting w)) w, [CallbackCalled]).

(** [attemptSync()] after the [await], when the callback's promise
    resolved. *)
Definition attemptSync_resolved (w : world) : world * list action :=
  (clearRetryTimer (set_retryCount 0 w), [SyncSuccessful]).

(** [attemptSync()] after the [await], when the callback's promise
    rejected: the [catch] block. *)
Definition attemptSync_rejected (w : world) : world * list action :=
  scheduleRetry w.

(** What can happen to the manager. *)
Inductive event :=
  | WindowOnline                 (* the window's 'online' event *)
  | WindowOffline                (* connectivity is lost *)
  | ExplicitSync                 (* a caller invokes attemptSync() *)
  | TimerFires (t : positive)    (* the timeout with handle t expires *)
  | CallbackResolves             (* a pending callback promise resolves *)
  | CallbackRejects.             (* a pending callback promise rejects *)

Definition step (e : event) (w : world) : world * list action :=
  match e with
  | WindowOnline => attemptSync (set_onLine true w)
  | WindowOffline => (set_onLine false w, [])
  | ExplicitSync => attemptSync w
  | TimerFires t =>
      if decide (t ∈ timeouts w)
      then attemptSync (set_timeouts (timeouts w ∖ {[t]}) w)
      else (w, [])
  | CallbackResolves =>
      match awaiting w with
      | S n => attemptSync_resolved (set_awaiting n w)
      | O => (w, [])
      end
  | CallbackRejects =>
      match awaiting w with
      | S n => attemptSync_rejected (set_awaiting n w)
      | O => (w, [])
      end
  end.

(** A sequence of events, with the actions performed so far. *)
Fixpoint run (es : list event) (w : world) (done : list action)
    : world * list action :=
  match es with
  | [] => (w, done)
  | e :: es' => let '(w', acts) := step e w in run es' w' (done ++ acts)
  end.

(** Events that start a sync of their own accord. *)
Definition is_trigger (e : event) : bool :=
  match e with
  | WindowOnline | ExplicitSync => true
  | _ => false
  end.

(** Events that can follow a trigger when the callback never succeeds and
    no new trigger arrives. *)
Definition is_followup (e : event) : bool :=
  match e with
  | WindowOffline | TimerFires _ | CallbackRejects => true
  | _ => false
  end.

(** Nothing of the manager is under way: no timeout pending, no callback
    awaited. *)
Definition at_rest (w : world) : Prop :=
  timeouts w = ∅ /\ awaiting w = 0.

Definition is_scheduled (a : action) : bool :=
  match a with
  | RetryScheduled _ _ => true
  | _ => false
  end.

(** The number of retries scheduled in a list of actions. *)
Definition scheduled (acts : list action) : nat :=
  length (filter (fun a => is_scheduled a = true) acts).

(** At most one thing of the manager is under way: one callback awaited,
    or one timeout pending. *)
Definition one_token (w : world) : Prop :=
  (timeouts w = ∅ /\ awaiting w <= 1) \/
  (awaiting w = 0 /\ exists t, timeouts w = {[t]}).

(** The cap [M] allows a count of [n]: [n] is zero, or the guard of
    [scheduleRetry] let the [n]-th retry pass, the counter being [n - 1]
    then. For a cap that is a natural number this is [n <= M]. *)
Definition allowed (M : Q) (n : nat) : Prop :=
  n = 0 \/ (num (n - 1) < M)%Q.

(** The two phases of an episode that started at rest with [retryCount]
    equal to [c0] and [maxRetries] equal to [M]: retries are being
    scheduled, or the cap has been reached. *)
Definition running (c0 : nat) (M : Q) (w : world) (acts : list action)
    : Prop :=
  maxRetries w = M /\
  (MaxRetriesReached ∉ acts) /\
  retryCount w = c0 + scheduled acts /\
  (scheduled acts = 0 \/ (num (retryCount w - 1) < M)%Q) /\
  one_token w.

Definition stopped (M : Q) (w : world) (acts : list action) : Prop :=
  maxRetries w = M /\
  at_rest w /\
  (MaxRetriesReached ∈ acts) /\
  allowed M (scheduled acts).

Definition episode_inv (c0 : nat) (M : Q) (w : world) (acts : list action)
    : Prop :=
  running c0 M w acts \/ stopped M w acts.

(** [destroy()] *)
Definition destroy (w : world) : world := clearRetryTimer w.

(** The handles a [retryTimer] field refers to. *)
Definition handle_set (o : option positive) : gset positive :=
  match o with
  | Some t => {[t]}
  | None => ∅
  end.

(** What holds of a manager whatever has happened to it since it was
    constructed: the only timeout that can be pending is the one in
    [retryTimer], and the counter is one the cap allows. *)
Definition well_formed (w : world) : Prop :=
  timeouts w ⊆ handle_set (retryTimer w) /\
  allowed (maxRetries w) (retryCount w).

(** Every retry scheduled in [acts] carries a number from one on that the
    cap [M] allows, and the delay [d]. *)
Definition retries_within (M : Q) (d : Z) (acts : list action) : Prop :=
  forall n delay, RetryScheduled n delay ∈ acts ->
    1 <= n /\ (num (n - 1) < M)%Q /\ delay = d.

End AutoSync.

(** ** The request router of the service worker *)

Module Router.

Definition CACHE_NAME : string := "smartcapi-v1".

Definition STATIC_FILES : list string :=
  [ "/"; "/index.html"; "/offline.html"; "/manifest.json";
    "/icons/smartcapi-icon.png"; "/icons/smartcapi-logo.png" ].

(** The object literal given to [JSON.stringify] for the offline answer. *)
Inductive json_value :=
  | JString (s : string)
  | JBool (b : bool).

Inductive payload :=
  | Opaque (bytes : string)
      (* a body received from the network *)
  | Stringified (members : list (string * json_value)).
      (* JSON.stringify({ k1: v1, ... }) *)

(** A response: its status, of its headers the content type and the
    field values of [Vary], and its body. *)
Record response := mkResponse {
  status : Z;
  content_type : option string;
  vary : list string;
  body : payload
}.

(** A request: its method, its URL (relative to the origin of the worker,
    so that the offline page is "/offline.html") and the [pathname] of
    [new URL(event.request.url)]. *)
Record request := mkRequest {
  method : string;
  url : string;
  pathname : string
}.

(** One cache: the stored responses by request URL. *)
Abbreviation cache := (gmap string response).

(** [caches]: the named caches, oldest first. *)
Abbreviation storage := (list (string * cache)).

(** [fetch(request)]: [None] when the promise rejects. *)
Definition network := request -> option response.

(** [response.ok] *)
Definition ok (r : response) : bool :=
  ((200 <=? status r) && (status r <=? 299))%Z.

(** [caches.keys()] *)
Definition caches_keys (cs : storage) : list string := map fst cs.

(** [caches.delete(name)] *)
Definition caches_delete (name : string) (cs : storage) : storage :=
  filter (fun nc => fst nc <> name) cs.

(** [caches.open(name)]: the cache is created when it does not exist. *)
Definition caches_open (name : string) (cs : storage) : storage :=
  if existsb (String.eqb name) (caches_keys cs) then cs
  else (cs ++ [(name, ∅)])%list.

(** Whether the browser's [cache.put] and [cache.addAll] take a response:
    they refuse, with a TypeError, a response whose status is 206 and a
    response whose [Vary] header has the value "*". *)
Definition put_accepted (r : response) : bool :=
  negb (status r =? 206)%Z && negb (existsb (String.eqb "*") (vary r)).

(** [cache.put(request, response)] on the cache called [name]. The
    listeners neither await nor catch the put: a response that is refused
    leaves the caches as they are. *)
Definition cache_put (name key : string) (r : response) (cs : storage)
    : storage :=
  if put_accepted r then
    map (fun nc => if fst nc =? name then (fst nc, <[key := r]> (snd nc))
                   else nc) cs
  else cs.

(** [caches.match(request)]: the first cache, in creation order, that
    holds an entry for the URL. *)
Fixpoint caches_match (key : string) (cs : storage) : option response :=
  match cs with
  | [] => None
  | (_, c) :: cs' =>
      match c !! key with
      | Some r => Some r
      | None => caches_match key cs'
      end
  end.

(** [cache.addAll(urls)]: every URL is fetched; the responses are stored
    only if every fetch succeeded with an ok status and a response that the
    cache takes. *)
Fixpoint fetch_all (net : network) (urls : list string)
    : option (list (string * response)) :=
  match urls with
  | [] => Some []
  | u :: urls' =>
      match net (mkRequest "GET" u u) with
      | Some r =>
          if ok r && put_accepted r then
            match fetch_all net urls' with
            | Some rs => Some ((u, r) :: rs)
            | None => None
            end
          else None
      | None => None
      end
  end.

Definition cache_addAll (name : string) (net : network) (urls : list string)
    (cs : storage) : storage * bool :=
  match fetch_all net urls with
  | Some rs =>
      (fold_left (fun acc ur => cache_put name (fst ur) (snd ur) acc) rs cs,
       true)
  | None => (cs, false)
  end.

(** The 'install' listener:
    [caches.open(CACHE_NAME).then(cache => cache.addAll(STATIC_FILES))].
    The boolean tells whether the installation succeeded. *)
Definition install (net : network) (cs : storage) : storage * bool :=
  cache_addAll CACHE_NAME net STATIC_FILES (caches_open CACHE_NAME cs).

(** The 'activate' listener: over [caches.keys()], delete every cache
    whose name is not [CACHE_NAME]. *)
Definition activate (cs : storage) : storage :=
  fold_left
    (fun acc cacheName =>
       if negb (cacheName =? CACHE_NAME) then caches_delete cacheName acc
       else acc)
    (caches_keys cs) cs.

(** [s.endsWith(suffix)] *)
Fixpoint endsWith (s suffix : string) : bool :=
  if s =? suffix then true
  else match s with
       | EmptyString => false
       | String _ s' => endsWith s' suffix
       end.

(** [s.startsWith(p)] *)
Definition startsWith (s p : string) : bool := String.prefix p s.

(** [STATIC_FILES.some(file => pathname.endsWith(file) || pathname === file)] *)
Definition is_static (path : string) : bool :=
  existsb (fun file => endsWith path file || (path =? file)) STATIC_FILES.

(** The answer synthesized when an API request fails and nothing is
    cached. *)
Definition offline_response : response :=
  mkResponse 503 (Some "application/json") []
    (Stringified
       [ ("error", JString "Offline - No cached data available");
         ("offline", JBool true) ]).

(** What the 'fetch' listener does with an event: nothing (the browser
    handles the request), or [event.respondWith(p)] where [p] resolves to a
    response or to [undefined]. *)
Inductive disposition :=
  | NotIntercepted
  | RespondWith (r : option response).

Record handled := mkHandled {
  reply : disposition;
  caches_after : storage;
  fetches : list request   (* the calls of fetch(), in order *)
}.

(** Strategy 1: cache first, for the static files. *)
Definition cacheFirst (net : network) (cs : storage) (req : request)
    : handled :=
  match caches_match (url req) cs with
  | Some r => mkHandled (RespondWith (Some r)) cs []
  | None =>
      match net req with
      | Some fetchResponse =>
          mkHandled (RespondWith (Some fetchResponse))
            (cache_put CACHE_NAME (url req) fetchResponse
               (caches_open CACHE_NAME cs))
            [req]
      | None =>
          mkHandled
            (RespondWith
               (if (pathname req =? "/") || (pathname req =? "/index.html")
                then caches_match "/offline.html" cs
                else None))
            cs [req]
      end
  end.

(** Strategy 2: network first with cache fallback, for the API. *)
Definition networkFirstApi (net : network) (cs : storage) (req : request)
    : handled :=
  match net req with
  | Some r =>
      mkHandled (RespondWith (Some r))
        (if ok r
         then cache_put CACHE_NAME (url req) r (caches_open CACHE_NAME cs)
         else cs)
        [req]
  | None =>
      mkHandled
        (RespondWith
           (Some (match caches_match (url req) cs with
                  | Some cachedResponse => cachedResponse
                  | None => offline_response
                  end)))
        cs [req]
  end.

(** Strategy 3: network first, for everything else. *)
Definition networkFirst (net : network) (cs : storage) (req : request)
    : handled :=
  match net req with
  | Some r => mkHandled (RespondWith (Some r)) cs [req]
  | None =>
      mkHandled
        (RespondWith
           (match caches_match (url req) cs with
            | Some r => Some r
            | None => caches_match "/offline.html" cs
            end))
        cs [req]
  end.

(** The 'fetch' listener. *)
Definition onFetch (net : network) (cs : storage) (req : request)
    : handled :=
  if negb (method req =? "GET") then mkHandled NotIntercepted cs []
  else if is_static (pathname req) then cacheFirst net cs req
  else if startsWith (pathname req) "/api/" then networkFirstApi net cs req
  else networkFirst net cs req.

End Router.

(** ** Sample data *)

Module Samples.
Import LocalDb Sync.

(** One transcript saved while offline. *)
Definition one_pending : store :=
  saveTranscript "u-1" 1000 "spk-1" "selamat pagi" ∅.

(** The same store after the record has been synced. *)
Definition one_synced : store :=
  fst (updateTranscriptStatus Client "u-1" "synced" one_pending).

(** Three transcripts saved while offline. *)
Definition three_pending : store :=
  saveTranscript "u-3" 1003 "spk-1" "terima kasih"
    (saveTranscript "u-2" 1002 "spk-2" "baik"
       (saveTranscript "u-1" 1001 "spk-1" "apa kabar" ∅)).

(** A server that answers 200 with one result per record of
    [three_pending]. *)
Definition three_results : list result :=
  [ mkResult "u-1" "created"; mkResult "u-2" "updated";
    mkResult "u-3" "conflict" ].

Definition three_net : network :=
  fun _ => FetchResponse 200 (Some three_results).

(** A manager built with the default options while online. *)
Definition default_manager : AutoSync.world :=
  AutoSync.construct (AutoSync.mkOptions None None) true.

(** One call of [attemptSync()] on it, every callback rejecting and every
    retry timer expiring in turn. *)
Definition failing_followups : list AutoSync.event :=
  [ AutoSync.CallbackRejects; AutoSync.TimerFires 1;
    AutoSync.CallbackRejects; AutoSync.TimerFires 2;
    AutoSync.CallbackRejects; AutoSync.TimerFires 3;
    AutoSync.CallbackRejects; AutoSync.TimerFires 4;
    AutoSync.CallbackRejects; AutoSync.TimerFires 5;
    AutoSync.CallbackRejects ].

(** A manager built with [{ maxRetries: 2 }] while online. *)
Definition two_retries_manager : AutoSync.world :=
  AutoSync.construct (AutoSync.mkOptions None (Some 2%Q)) true.

(** A call of [attemptSync()] that fails, and the first retry, which fails
    too: the timer of retry 2 is pending afterwards. *)
Definition first_failures : list AutoSync.event :=
  [ AutoSync.ExplicitSync; AutoSync.CallbackRejects;
    AutoSync.TimerFires 1; AutoSync.CallbackRejects ].

(** What follows when the window's online event arrives then, every
    callback rejecting before the next timer expires. *)
Definition online_followups : list AutoSync.event :=
  [ AutoSync.CallbackRejects;
    AutoSync.TimerFires 2; AutoSync.CallbackRejects;
    AutoSync.TimerFires 3; AutoSync.CallbackRejects;
    AutoSync.TimerFires 4; AutoSync.CallbackRejects ].

(** Managers built with [{ maxRetries: -1 }] and [{ maxRetries: 2.5 }]. *)
Definition negative_cap_manager : AutoSync.world :=
  AutoSync.construct (AutoSync.mkOptions None (Some (-1)%Q)) true.

Definition fractional_cap_manager : AutoSync.world :=
  AutoSync.construct (AutoSync.mkOptions None (Some 2.5%Q)) true.

(** An API request whose path ends with "/", a copy of an old answer in
    the current cache, and a network that would answer afresh. *)
Definition listing_request : Router.request :=
  Router.mkRequest "GET" "/api/interviews/" "/api/interviews/".

Definition stale_listing : Router.response :=
  Router.mkResponse 200 (Some "application/json") [] (Router.Opaque "[]").

Definition fresh_listing : Router.response :=
  Router.mkResponse 200 (Some "application/json") []
    (Router.Opaque "[{id:1}]").

Definition listing_cached : Router.storage :=
  [ (Router.CACHE_NAME, {[ "/api/interviews/" := stale_listing ]}) ].

Definition listing_net : Router.network := fun _ => Some fresh_listing.

(** An API request that matches no static file. *)
Definition health_request : Router.request :=
  Router.mkRequest "GET" "/api/health" "/api/health".

(** The caches left by two earlier versions of the worker. *)
Definition old_caches : Router.storage :=
  [ ("smartcapi-v0", {[ "/" := stale_listing ]});
    ("smartcapi-beta", ∅) ].

End Samples.

(** ** Background sync: registration, the worker's listeners, the caller *)

Module Background.
Import LocalDb Sync.

(** What the page finds in its browser. *)
Record platform := mkPlatform {
  has_serviceWorker : bool;       (* 'serviceWorker' in navigator *)
  has_SyncManager : bool;         (* 'SyncManager' in window *)
  worker_ready : bool;
    (* whether navigator.serviceWorker.ready resolves; it never rejects,
       and stays pending while no worker is active *)
  register_resolves : string -> bool
    (* whether registration.sync.register(tag) resolves *)
}.

(** What a function of localDb.js rejects with when the database cannot be
    opened, [db.transaction] throws (the object store is missing) or the
    request fails: [None] when it does not reject. *)
Definition storage_fault := option error.

(** [syncWithServer()] when its first statement,
    [await getPendingTranscripts()], may reject: the statement is before
    the [try], so its rejection is the rejection of [syncWithServer()],
    in syncService.js as in the worker. *)
Definition syncWithServer_reading (v : variant) (read : storage_fault)
    (net : network) (s : store) : run :=
  match read with
  | Some e => mkRun s [] (Rejected e)
  | None => syncWithServer v net s
  end.

(** An execution of [registerBackgroundSync]: the store it leaves, the
    batches posted, the tags registered with the browser, and how its
    promise settles ([None] when it never does). *)
Record registered := mkRegistered {
  reg_store : store;
  reg_posted : list (list record);
  reg_tags : list string;
  reg_settled : option (promise unit)
}.

(** [registerBackgroundSync()] of syncService.js. In the first branch
    everything is inside the [try]; in the second [await syncWithServer()]
    is not. *)
Definition registerBackgroundSync (pf : platform) (read : storage_fault)
    (net : network) (s : store) : registered :=
  if has_serviceWorker pf && has_SyncManager pf then
    if worker_ready pf then
      mkRegistered s []
        (if register_resolves pf "transcript-sync" then ["transcript-sync"]
         else [])
        (Some (Resolved tt))
    else mkRegistered s [] [] None
  else
    let r := syncWithServer_reading Client read net s in
    mkRegistered (store_after r) (posted r) [] (Some (settled r)).

(** The worker's 'sync' listener: [None] when the listener does not call
    [event.waitUntil]. *)
Definition onSync (tag : string) (net : network) (s : store) : option run :=
  if tag =? "transcript-sync" then Some (syncWithServer ServiceWorker net s)
  else None.

(** The worker's 'periodicsync' listener. *)
Definition onPeriodicSync (tag : string) (net : network) (s : store)
    : option run :=
  if tag =? "transcript-periodic-sync"
  then Some (syncWithServer ServiceWorker net s)
  else None.



End Background.

(** ** The network monitor *)

Module Monitor.

(** The module state of networkMonitor.js. Times are [Date] values in
    milliseconds. *)
Record monitor := mkMonitor {
  isOnline : bool;
  connectionType : string;
  lastOnlineTime : option Z;
  lastOfflineTime : option Z
}.

(** [navigator.connection]: absent, or present with its [effectiveType]
    (which may be undefined). *)
Definition connection := option (option string).

(** [effectiveType || 'unknown'] *)
Definition type_or_unknown (effectiveType : option string) : string :=
  match effectiveType with
  | Some "" | None => "unknown"
  | Some t => t
  end.

(** The state when the module has been loaded. *)
Definition init (onLine : bool) (conn : connection) : monitor :=
  mkMonitor onLine
    (match conn with
     | Some effectiveType => type_or_unknown effectiveType
     | None => "unknown"
     end)
    None None.

(** [handleOnline], at clock reading [now]: the new state and the sync tags
    registered. [has_sw] is ['serviceWorker' in navigator], [has_sync] is
    ['sync' in registration]. *)
Definition handleOnline (has_sw has_sync : bool) (now : Z) (m : monitor)
    : monitor * list string :=
  (mkMonitor true (connectionType m) (Some now) (lastOfflineTime m),
   if has_sw && has_sync then ["transcript-sync"] else []).

(** [handleOffline], at clock reading [now]. *)
Definition handleOffline (now : Z) (m : monitor) : monitor :=
  mkMonitor false (connectionType m) (lastOnlineTime m) (Some now).

(** [handleConnectionChange] *)
Definition handleConnectionChange (conn : connection) (m : monitor)
    : monitor :=
  match conn with
  | Some effectiveType =>
      mkMonitor (isOnline m) (type_or_unknown effectiveType)
                (lastOnlineTime m) (lastOfflineTime m)
  | None => m
  end.

(** [getConnectionQuality()] *)
Definition getConnectionQuality (m : monitor) : string :=
  if negb (isOnline m) then "offline"
  else if (connectionType m =? "slow-2g") || (connectionType m =? "2g")
  then "poor"
  else if connectionType m =? "3g" then "moderate"
  else if (connectionType m =? "4g") || (connectionType m =? "5g")
  then "good"
  else "unknown".

(** [getDowntimeDuration()], at clock reading [now]. *)
Definition getDowntimeDuration (now : Z) (m : monitor) : Z :=
  if isOnline m then 0%Z
  else match lastOfflineTime m with
       | None => 0%Z
       | Some t => (now - t)%Z
       end.

(** [checkConnection()]: the probe is the settled HEAD request, [None] when
    it rejected, else the status of the response. *)
Definition checkConnection (probe : option Z) : bool :=
  match probe with
  | Some status => Sync.ok status
  | None => false
  end.

(** The events the module listens to, with the clock reading at which the
    handler runs. *)
Inductive event :=
  | Online (now : Z)
  | Offline (now : Z)
  | ConnectionChange (conn : connection).

Definition handle (has_sw has_sync : bool) (e : event) (m : monitor)
    : monitor :=
  match e with
  | Online now => fst (handleOnline has_sw has_sync now m)
  | Offline now => handleOffline now m
  | ConnectionChange conn => handleConnectionChange conn m
  end.

Definition handle_all (has_sw has_sync : bool) (es : list event)
    (m : monitor) : monitor :=
  fold_left (fun m e => handle has_sw has_sync e m) es m.

(** The clock reading of an event, if it has one. *)
Definition happened_by (now : Z) (e : event) : Prop :=
  match e with
  | Online t | Offline t => (t <= now)%Z
  | ConnectionChange _ => True
  end.

(** Events that leave connectivity as it is. *)
Definition is_change (e : event) : bool :=
  match e with
  | ConnectionChange _ => true
  | _ => false
  end.

End Monitor.

(** * Properties *)

Section LocalDbFacts.
Import LocalDb.

Lemma record_of_row_of (r : record) : record_of (uuid r) (row_of r) = r.
Proof. by destruct r. Qed.

Lemma store_get_uuid (k : string) (s : store) (r : record) :
  store_get k s = Some r -> uuid r = k.
Proof.
  unfold store_get. destruct (s !! k) as [w|]; simpl; [|done].
  by intros [= <-].
Qed.

Lemma store_get_put_eq (r : record) (s : store) :
  store_get (uuid r) (store_put r s) = Some r.
Proof.
  unfold store_get, store_put. rewrite lookup_insert_eq. simpl.
  by rewrite record_of_row_of.
Qed.

Lemma store_get_put_ne (k : string) (r : record) (s : store) :
  k <> uuid r -> store_get k (store_put r s) = store_get k s.
Proof.
  intros Hne. unfold store_get, store_put.
  rewrite lookup_insert_ne; [done | congruence].
Qed.

Lemma elem_of_getPendingTranscripts (r : record) (s : store) :
  r ∈ getPendingTranscripts s <->
  store_get (uuid r) s = Some r /\ sync_status r = "pending".
Proof.
  unfold getPendingTranscripts, index_getAll.
  rewrite list_elem_of_filter, list_elem_of_fmap. split.
  - intros [Hst [[k w] [-> Hin]]]. apply elem_of_map_to_list in Hin.
    simpl in *. split; [|done].
    unfold store_get. by rewrite Hin.
  - intros [Hget Hst]. split; [done|].
    unfold store_get in Hget.
    destruct (s !! uuid r) as [w|] eqn:Hl; simpl in Hget; [|done].
    exists (uuid r, w). split; [by injection Hget|].
    by apply elem_of_map_to_list.
Qed.

Lemma updateTranscriptStatus_found (v : variant) (k status : string)
    (s : store) (r : record) :
  store_get k s = Some r ->
  updateTranscriptStatus v k status s =
    (store_put (set_sync_status r status) s, Resolved tt).
Proof. intros H. unfold updateTranscriptStatus. by rewrite H. Qed.

Lemma updateTranscriptStatus_missing (v : variant) (k status : string)
    (s : store) :
  store_get k s = None ->
  updateTranscriptStatus v k status s = (s, Rejected (not_found v k)).
Proof. intros H. unfold updateTranscriptStatus. by rewrite H. Qed.

(** After an update, the record under [k] is the old one with the new
    status. *)
Lemma updateTranscriptStatus_get_eq (v : variant) (k status : string)
    (s : store) (r : record) :
  store_get k s = Some r ->
  store_get k (fst (updateTranscriptStatus v k status s)) =
    Some (set_sync_status r status).
Proof.
  intros H. rewrite (updateTranscriptStatus_found _ _ _ _ _ H). simpl.
  pose proof (store_get_uuid _ _ _ H) as Hk.
  replace k with (uuid (set_sync_status r status)) at 1 by done.
  apply store_get_put_eq.
Qed.

(** An update leaves the records under other keys alone, whether it
    resolves or rejects. *)
Lemma updateTranscriptStatus_get_ne (v : variant) (k k' status : string)
    (s : store) :
  k' <> k ->
  store_get k' (fst (updateTranscriptStatus v k status s)) = store_get k' s.
Proof.
  intros Hne. unfold updateTranscriptStatus.
  destruct (store_get k s) as [r|] eqn:H; simpl; [|done].
  apply store_get_put_ne. simpl.
  by rewrite (store_get_uuid _ _ _ H).
Qed.

End LocalDbFacts.

Section SetStatus.
Import LocalDb Samples.

(** C4, as amended: [updateTranscriptStatus(uuid, status)] rejects with the
    "Record not found" reason and leaves the store as it is when no record
    has that uuid; otherwise it resolves, and the stored record has the new
    [sync_status] while its timestamp [updated_at] keeps its old value. *)
Theorem updateTranscriptStatus_spec (v : variant) (k status : string)
    (s : store) :
  (store_get k s = None ->
   updateTranscriptStatus v k status s = (s, Rejected (not_found v k))) /\
  (forall r, store_get k s = Some r ->
   snd (updateTranscriptStatus v k status s) = Resolved tt /\
   exists r',
     store_get k (fst (updateTranscriptStatus v k status s)) = Some r' /\
     sync_status r' = status /\
     updated_at r' = updated_at r).
Proof.
  split.
  - apply updateTranscriptStatus_missing.
  - intros r Hr. split.
    + by rewrite (updateTranscriptStatus_found _ _ _ _ _ Hr).
    + exists (set_sync_status r status).
      by rewrite (updateTranscriptStatus_get_eq _ _ _ _ _ Hr).
Qed.

Lemma updateTranscriptStatus_spec_witness :
  store_get "u-2" one_pending = None /\
  updateTranscriptStatus ServiceWorker "u-2" "synced" one_pending =
    (one_pending, Rejected (ErrReason "Record not found: u-2")) /\
  exists r,
    store_get "u-1" one_pending = Some r /\
    snd (updateTranscriptStatus Client "u-1" "synced" one_pending) =
      Resolved tt /\
    exists r',
      store_get "u-1"
        (fst (updateTranscriptStatus Client "u-1" "synced" one_pending)) =
        Some r' /\
      sync_status r' = "synced" /\ updated_at r' = updated_at r.
Proof.
  assert (H2 : store_get "u-2" one_pending = None) by (vm_compute; reflexivity).
  assert (H1 : store_get "u-1" one_pending =
               Some (mkRecord "u-1" "spk-1" "selamat pagi" 1000 "pending"))
    by (vm_compute; reflexivity).
  split; [exact H2|]. split.
  - exact (proj1 (updateTranscriptStatus_spec ServiceWorker "u-2" "synced"
                    one_pending) H2).
  - eexists. split; [exact H1|].
    exact (proj2 (updateTranscriptStatus_spec Client "u-1" "synced"
                    one_pending) _ H1).
Defined.

(** C4 as the specification words it fails: a call made at clock reading
    [now] does not leave [now] in the record's timestamp. The function never
    reads the clock; the record saved at 1000 and updated at 2000 still
    carries 1000. *)
Lemma updateTranscriptStatus_keeps_timestamp :
  ~ (forall (v : variant) (now : Z) (k status : string) (s : store)
            (r : record),
       store_get k s = Some r ->
       exists r',
         store_get k (fst (updateTranscriptStatus v k status s)) = Some r' /\
         sync_status r' = status /\
         updated_at r' = now).
Proof.
  intros H.
  assert (H1 : store_get "u-1" one_pending =
               Some (mkRecord "u-1" "spk-1" "selamat pagi" 1000 "pending"))
    by (vm_compute; reflexivity).
  destruct (H Client 2000%Z "u-1" "synced" one_pending _ H1)
    as (r' & Hget & _ & Hts).
  vm_compute in Hget. injection Hget as <-. discriminate Hts.
Qed.

(** C9: updating the status of an existing record changes nothing but its
    [sync_status]: uuid, speaker, text and timestamp are the same before and
    after, and so is every other record of the store. *)
Theorem updateTranscriptStatus_frame (v : variant) (k status : string)
    (s : store) (r : record) :
  store_get k s = Some r ->
  exists r',
    store_get k (fst (updateTranscriptStatus v k status s)) = Some r' /\
    uuid r' = uuid r /\
    speaker_id r' = speaker_id r /\
    text r' = text r /\
    updated_at r' = updated_at r /\
    sync_status r' = status /\
    forall k', k' <> k ->
      store_get k' (fst (updateTranscriptStatus v k status s)) =
      store_get k' s.
Proof.
  intros Hr. exists (set_sync_status r status).
  rewrite (updateTranscriptStatus_get_eq _ _ _ _ _ Hr).
  repeat split. intros k' Hne. by apply updateTranscriptStatus_get_ne.
Qed.

Lemma updateTranscriptStatus_frame_witness :
  exists r r',
    store_get "u-1" one_pending = Some r /\
    store_get "u-1"
      (fst (updateTranscriptStatus ServiceWorker "u-1" "conflict"
              one_pending)) = Some r' /\
    uuid r' = uuid r /\
    speaker_id r' = speaker_id r /\
    text r' = text r /\
    updated_at r' = updated_at r /\
    sync_status r' = "conflict".
Proof.
  assert (H1 : store_get "u-1" one_pending =
               Some (mkRecord "u-1" "spk-1" "selamat pagi" 1000 "pending"))
    by (vm_compute; reflexivity).
  destruct (updateTranscriptStatus_frame ServiceWorker "u-1" "conflict"
              one_pending _ H1) as (r' & H & Hu & Hs & Ht & Ha & Hst & _).
  eexists; exists r'. split; [exact H1|]. repeat split; assumption.
Defined.

End SetStatus.

Section SyncFacts.
Import LocalDb Sync Samples.

Lemma newStatus_success (v : variant) (r : result) :
  res_status r = "created" \/ res_status r = "updated" ->
  newStatus v r = Some "synced".
Proof. intros [H|H]; destruct v; unfold newStatus; by rewrite H. Qed.

(** The service worker maps every other status to "conflict". *)
Lemma newStatus_ServiceWorker_other (r : result) :
  res_status r <> "created" -> res_status r <> "updated" ->
  newStatus ServiceWorker r = Some "conflict".
Proof.
  intros H1 H2. unfold newStatus.
  apply String.eqb_neq in H1, H2. by rewrite H1, H2.
Qed.

(** No version ever maps another status to "synced". *)
Lemma newStatus_conservative (v : variant) (r : result) :
  res_status r <> "created" -> res_status r <> "updated" ->
  newStatus v r <> Some "synced".
Proof.
  intros H1 H2. unfold newStatus.
  apply String.eqb_neq in H1, H2. rewrite H1, H2. simpl.
  destruct v; [|done]. by destruct (res_status r =? "conflict").
Qed.

(** Records the results do not name are left alone. *)
Lemma applyResults_get_other (v : variant) (rs : list result) (k : string) :
  forall (s : store) (failed : option error),
    k ∉ map res_uuid rs ->
    store_get k (fst (applyResults v rs s failed)) = store_get k s.
Proof.
  induction rs as [|r rs IH]; intros s failed Hk; simpl; [done|].
  simpl in Hk. apply not_elem_of_cons in Hk as [Hne Hk].
  destruct (newStatus v r) as [st|]; [|by apply IH].
  pose proof (updateTranscriptStatus_get_ne v (res_uuid r) k st s Hne) as Hu.
  destruct (updateTranscriptStatus v (res_uuid r) st s) as [s' [[]|e]];
    simpl in Hu; rewrite IH by done; exact Hu.
Qed.

(** With one result per uuid, the record a result names ends with the
    status computed for that result. *)
Lemma applyResults_get (v : variant) (rs : list result) :
  forall (s : store) (failed : option error) (r : result) (p : record)
         (st : string),
    NoDup (map res_uuid rs) ->
    r ∈ rs ->
    store_get (res_uuid r) s = Some p ->
    newStatus v r = Some st ->
    store_get (res_uuid r) (fst (applyResults v rs s failed)) =
      Some (set_sync_status p st).
Proof.
  induction rs as [|r0 rs IH]; intros s failed r p st Hnd Hin Hp Hst;
    [by apply elem_of_nil in Hin|].
  simpl in Hnd. apply NoDup_cons in Hnd as [Hfresh Hnd].
  apply elem_of_cons in Hin as [->|Hin]; simpl.
  - rewrite Hst.
    pose proof (updateTranscriptStatus_get_eq v _ st s p Hp) as Hu.
    rewrite (updateTranscriptStatus_found v _ st s p Hp) in Hu |- *.
    by rewrite applyResults_get_other.
  - assert (Hne : res_uuid r <> res_uuid r0).
    { intros Heq. apply Hfresh. rewrite <- Heq.
      apply list_elem_of_fmap. by exists r. }
    destruct (newStatus v r0) as [st0|]; [|by apply IH].
    pose proof (updateTranscriptStatus_get_ne v (res_uuid r0) (res_uuid r)
                  st0 s Hne) as Hu.
    destruct (updateTranscriptStatus v (res_uuid r0) st0 s) as [s' [[]|e]];
      simpl in Hu; apply IH; try done; by rewrite Hu.
Qed.

(** When every result names a stored record, no update rejects. *)
Lemma applyResults_no_rejection (v : variant) (rs : list result) :
  forall (s : store),
    (forall r, r ∈ rs -> is_Some (store_get (res_uuid r) s)) ->
    snd (applyResults v rs s None) = None.
Proof.
  induction rs as [|r0 rs IH]; intros s Hall; simpl; [done|].
  assert (Hrest : forall r, r ∈ rs -> is_Some (store_get (res_uuid r) s))
    by (intros r Hr; apply Hall; by right).
  destruct (newStatus v r0) as [st0|]; [|by apply IH].
  destruct (Hall r0 ltac:(by left)) as [p Hp].
  rewrite (updateTranscriptStatus_found v _ st0 s p Hp).
  apply IH. intros r Hr.
  destruct (decide (res_uuid r = res_uuid r0)) as [Heq|Hne].
  - rewrite Heq.
    replace (res_uuid r0) with (uuid (set_sync_status p st0)) at 1
      by (simpl; by apply store_get_uuid in Hp).
    rewrite store_get_put_eq. by eexists.
  - rewrite store_get_put_ne; [by apply Hrest|].
    simpl. by rewrite (store_get_uuid _ _ _ Hp).
Qed.

(** A failed request leaves the store as it was. *)
Lemma trySync_failure (v : variant) (f : fetched) (s : store) :
  f = FetchRejected \/
  (exists status body, f = FetchResponse status body /\ ok status = false) ->
  exists e, trySync v f s = (s, Some e) /\
            (e = ErrFetch \/ exists status, e = ErrServerResponded status).
Proof.
  intros [->|(status & body & -> & Hok)]; simpl.
  - exists ErrFetch. split; [done|by left].
  - rewrite Hok. simpl. exists (ErrServerResponded status).
    split; [done|right; by exists status].
Qed.

End SyncFacts.

Section SyncClaims.
Import LocalDb Sync Samples.

(** C5: with no pending record, [syncWithServer] posts nothing, resolves,
    and leaves the store as it was. *)
Theorem syncWithServer_nothing_pending (v : variant) (net : network)
    (s : store) :
  getPendingTranscripts s = [] ->
  syncWithServer v net s = mkRun s [] (Resolved tt).
Proof. intros H. unfold syncWithServer. by rewrite H. Qed.

Lemma syncWithServer_nothing_pending_witness :
  getPendingTranscripts one_synced = [] /\
  syncWithServer ServiceWorker (fun _ => FetchRejected) one_synced =
    mkRun one_synced [] (Resolved tt).
Proof.
  assert (H : getPendingTranscripts one_synced = [])
    by (vm_compute; reflexivity).
  split; [exact H|].
  exact (syncWithServer_nothing_pending ServiceWorker _ one_synced H).
Defined.

(** C3, as amended: when the batch request is rejected or answered with a
    status outside 200-299, the store is left as it was, so every submitted
    record is still stored as "pending"; the service worker's
    [syncWithServer] rejects with the error, while the one of
    syncService.js resolves. *)
Theorem syncWithServer_request_fails (v : variant) (net : network)
    (s : store) :
  getPendingTranscripts s <> [] ->
  net (getPendingTranscripts s) = FetchRejected \/
  (exists status body,
     net (getPendingTranscripts s) = FetchResponse status body /\
     ok status = false) ->
  store_after (syncWithServer v net s) = s /\
  (forall r, r ∈ getPendingTranscripts s ->
     store_get (uuid r) (store_after (syncWithServer v net s)) = Some r /\
     sync_status r = "pending") /\
  match v with
  | ServiceWorker =>
      exists e, settled (syncWithServer v net s) = Rejected e /\
                (e = ErrFetch \/ exists status, e = ErrServerResponded status)
  | Client => settled (syncWithServer v net s) = Resolved tt
  end.
Proof.
  intros Hne Hfail.
  destruct (trySync_failure v _ s Hfail) as (e & Htry & He).
  unfold syncWithServer.
  destruct (getPendingTranscripts s) as [|p ps] eqn:Hp; [done|].
  simpl. rewrite Htry. simpl. split; [done|]. split.
  - intros r Hr. rewrite <- Hp in Hr.
    by apply elem_of_getPendingTranscripts in Hr.
  - destruct v; simpl; [done|]. by exists e.
Qed.

Lemma syncWithServer_request_fails_witness :
  (exists e,
     settled (syncWithServer ServiceWorker
                (fun _ => FetchResponse 500 None) one_pending) = Rejected e) /\
  store_after (syncWithServer ServiceWorker
                 (fun _ => FetchResponse 500 None) one_pending) = one_pending.
Proof.
  assert (Hne : getPendingTranscripts one_pending <> [])
    by (vm_compute; discriminate).
  destruct (syncWithServer_request_fails ServiceWorker
              (fun _ => FetchResponse 500 None) one_pending Hne
              (or_intror (ex_intro _ 500%Z (ex_intro _ None
                 (conj eq_refl eq_refl)))))
    as (Hs & _ & e & He & _).
  split; [by exists e | exact Hs].
Defined.

(** C3 as the specification words it fails on syncService.js: with a
    pending record and a transport failure, the promise of [syncWithServer]
    resolves; no error reaches the caller. *)
Lemma client_sync_swallows_failure :
  getPendingTranscripts one_pending <> [] /\
  settled (syncWithServer Client (fun _ => FetchRejected) one_pending) =
    Resolved tt /\
  forall e,
    settled (syncWithServer Client (fun _ => FetchRejected) one_pending) <>
    Rejected e.
Proof.
  split; [vm_compute; discriminate|].
  split; [vm_compute; reflexivity|].
  intros e. vm_compute. discriminate.
Qed.

(** C1, at the failing input: the server answers 200 with the status
    "rejected" for the pending record "u-1". After [syncWithServer] of
    syncService.js the record is still "pending", not "conflict"; after the
    service worker's it is "conflict". *)
Theorem client_sync_unrecognized_status :
  let net := fun _ : list record =>
               FetchResponse 200 (Some [mkResult "u-1" "rejected"]) in
  sync_status <$>
    store_get "u-1" (store_after (syncWithServer Client net one_pending)) =
    Some "pending" /\
  sync_status <$>
    store_get "u-1"
      (store_after (syncWithServer ServiceWorker net one_pending)) =
    Some "conflict".
Proof. split; vm_compute; reflexivity. Qed.

(** C2: when the server answers with an ok status and results that name
    submitted records, one result per uuid, [syncWithServer] resolves and
    every result's status, as mapped by [newStatus], is stored in the record
    with that result's uuid; in particular a submitted record reported as
    "created" or "updated" ends "synced" (and is otherwise unchanged). *)
Theorem syncWithServer_applies_results (v : variant) (net : network)
    (s : store) (status : Z) (rs : list result) :
  net (getPendingTranscripts s) = FetchResponse status (Some rs) ->
  ok status = true ->
  NoDup (map res_uuid rs) ->
  (forall r, r ∈ rs ->
     exists p, p ∈ getPendingTranscripts s /\ uuid p = res_uuid r) ->
  settled (syncWithServer v net s) = Resolved tt /\
  forall r p,
    r ∈ rs -> p ∈ getPendingTranscripts s -> uuid p = res_uuid r ->
    (forall st, newStatus v r = Some st ->
       store_get (uuid p) (store_after (syncWithServer v net s)) =
         Some (set_sync_status p st)) /\
    (res_status r = "created" \/ res_status r = "updated" ->
     store_get (uuid p) (store_after (syncWithServer v net s)) =
       Some (set_sync_status p "synced")).
Proof.
  intros Hnet Hok Hnd Hmatch.
  assert (Hstored : forall r, r ∈ rs -> is_Some (store_get (res_uuid r) s)).
  { intros r Hr. destruct (Hmatch r Hr) as (p & Hp & Hu).
    apply elem_of_getPendingTranscripts in Hp as [Hp _].
    rewrite <- Hu. by eexists. }
  unfold syncWithServer.
  destruct (getPendingTranscripts s) as [|p0 ps] eqn:Hpend.
  - simpl. split; [done|]. intros r p _ Hp. by apply elem_of_nil in Hp.
  - simpl. rewrite Hnet. simpl. rewrite Hok. simpl.
    pose proof (applyResults_no_rejection v rs s Hstored) as Hnone.
    destruct (applyResults v rs s None) as [s' thrown] eqn:Happ.
    simpl in Hnone. subst thrown. simpl. split; [done|].
    intros r p Hr Hp Hu. rewrite <- Hpend in Hp.
    apply elem_of_getPendingTranscripts in Hp as [Hp _].
    assert (Hgo : forall st, newStatus v r = Some st ->
              store_get (uuid p) s' = Some (set_sync_status p st)).
    { intros st Hst. rewrite Hu in Hp |- *.
      pose proof (applyResults_get v rs s None r p st Hnd Hr Hp Hst) as H.
      by rewrite Happ in H. }
    split; [exact Hgo|].
    intros Hsucc. apply Hgo. by apply newStatus_success.
Qed.

End SyncClaims.

Section SyncScenario.
Import LocalDb Sync Samples.

Lemma syncWithServer_applies_results_witness :
  settled (syncWithServer Client three_net three_pending) = Resolved tt /\
  store_get "u-2"
    (store_after (syncWithServer Client three_net three_pending)) =
    Some (mkRecord "u-2" "spk-2" "baik" 1002 "synced").
Proof.
  assert (Hnd : NoDup (map res_uuid three_results)).
  { apply (bool_decide_unpack _). vm_compute. reflexivity. }
  assert (Hpend : forall p,
            p ∈ [ mkRecord "u-1" "spk-1" "apa kabar" 1001 "pending";
                  mkRecord "u-2" "spk-2" "baik" 1002 "pending";
                  mkRecord "u-3" "spk-1" "terima kasih" 1003 "pending" ] ->
            p ∈ getPendingTranscripts three_pending).
  { intros p Hp. apply elem_of_getPendingTranscripts.
    repeat (apply elem_of_cons in Hp as [->|Hp]);
      [split; vm_compute; reflexivity ..|by apply elem_of_nil in Hp]. }
  assert (Hmatch : forall r, r ∈ three_results ->
            exists p, p ∈ getPendingTranscripts three_pending /\
                      uuid p = res_uuid r).
  { intros r Hr. unfold three_results in Hr.
    repeat (apply elem_of_cons in Hr as [->|Hr]);
      [eexists; split; [apply Hpend|] ..|by apply elem_of_nil in Hr].
    - apply list_elem_of_here.
    - reflexivity.
    - apply list_elem_of_further, list_elem_of_here.
    - reflexivity.
    - apply list_elem_of_further, list_elem_of_further, list_elem_of_here.
    - reflexivity. }
  destruct (syncWithServer_applies_results Client three_net three_pending
              200 three_results eq_refl eq_refl Hnd Hmatch) as [Hok Hall].
  split; [exact Hok|].
  refine (proj2 (Hall (mkResult "u-2" "updated")
                   (mkRecord "u-2" "spk-2" "baik" 1002 "pending")
                   _ _ eq_refl) (or_intror eq_refl)).
  - apply list_elem_of_further, list_elem_of_here.
  - apply Hpend. apply list_elem_of_further, list_elem_of_here.
Defined.

(** The end-to-end scenario: three pending records, the server reports
    created, updated and conflict; records 1 and 2 end "synced", record 3
    ends "conflict", in both versions. *)
Example syncWithServer_three_records (v : variant) :
  let after := store_after (syncWithServer v three_net three_pending) in
  sync_status <$> store_get "u-1" after = Some "synced" /\
  sync_status <$> store_get "u-2" after = Some "synced" /\
  sync_status <$> store_get "u-3" after = Some "conflict" /\
  getPendingTranscripts after = [].
Proof. destruct v; vm_compute; repeat split; reflexivity. Qed.

End SyncScenario.

Section AutoSyncFacts.
Import AutoSync.

Lemma num_le (a b : nat) : a <= b -> (num a <= num b)%Q.
Proof. intros H. unfold num. rewrite <- Zle_Qle. lia. Qed.

Lemma num_lt (a b : nat) : (num a < num b)%Q <-> a < b.
Proof. unfold num. rewrite <- Zlt_Qlt. lia. Qed.

(** The guard of [scheduleRetry], read both ways. *)
Lemma scheduleRetry_guard (M : Q) (c : nat) :
  Qle_bool M (num c) = false <-> (num c < M)%Q.
Proof.
  split.
  - intros H. apply Qnot_le_lt. intros Hle.
    apply Qle_bool_iff in Hle. congruence.
  - intros H. destruct (Qle_bool M (num c)) eqn:E; [|done].
    apply Qle_bool_iff in E. exfalso. by eapply Qlt_not_le.
Qed.

Lemma num_pred_S (c : nat) : num (S c - 1) = num c.
Proof. by replace (S c - 1) with c by lia. Qed.

Lemma allowed_S (M : Q) (c : nat) : (num c < M)%Q -> allowed M (S c).
Proof. intros H. right. by rewrite num_pred_S. Qed.

Lemma allowed_le (M : Q) (a b : nat) :
  a <= b -> allowed M b -> allowed M a.
Proof.
  intros Hab [->|Hb]; [left; lia|].
  destruct a as [|a]; [by left|]. right.
  eapply Qle_lt_trans; [|exact Hb]. apply num_le. lia.
Qed.

(** For a cap that is a natural number, the counts allowed are those up
    to the cap. *)
Lemma allowed_integral (m n : nat) : allowed (num m) n <-> n <= m.
Proof. unfold allowed. rewrite num_lt. lia. Qed.

(** A cap that is zero or negative allows no retry. *)
Lemma allowed_nonpositive (M : Q) (n : nat) :
  (M <= 0)%Q -> allowed M n -> n = 0.
Proof.
  intros HM [->|Hn]; [done|]. exfalso.
  apply (Qlt_irrefl (num (n - 1))).
  eapply Qlt_le_trans; [exact Hn|].
  eapply Qle_trans; [exact HM|]. apply (num_le 0). lia.
Qed.

Lemma scheduled_app (a b : list action) :
  scheduled (a ++ b) = scheduled a + scheduled b.
Proof. unfold scheduled. by rewrite filter_app, length_app. Qed.

Lemma run_app (es1 es2 : list event) :
  forall (w : world) (acts : list action),
    run (es1 ++ es2) w acts =
    run es2 (fst (run es1 w acts)) (snd (run es1 w acts)).
Proof.
  induction es1 as [|e es1 IH]; intros w acts; simpl; [done|].
  destruct (step e w) as [w' a]. apply IH.
Qed.

(** The offline guard of [attemptSync]. *)
Lemma attemptSync_offline (w : world) :
  onLine w = false -> attemptSync w = (w, [SyncPostponed]).
Proof. intros H. unfold attemptSync. by rewrite H. Qed.

Lemma attemptSync_online (w : world) :
  onLine w = true ->
  attemptSync w = (set_awaiting (S (awaiting w)) w, [CallbackCalled]).
Proof. intros H. unfold attemptSync. by rewrite H. Qed.

(** At rest, an event that is not a trigger does nothing. *)
Lemma step_followup_at_rest (e : event) (w : world) :
  at_rest w -> is_followup e = true ->
  snd (step e w) = [] /\ at_rest (fst (step e w)) /\
  maxRetries (fst (step e w)) = maxRetries w.
Proof.
  intros [Ht Ha] He. destruct e; try discriminate; simpl.
  - done.
  - destruct (decide (t ∈ timeouts w)) as [Hin|_]; [|done].
    rewrite Ht in Hin. set_solver.
  - by rewrite Ha.
Qed.

Lemma run_followups_at_rest (es : list event) :
  forall (w : world) (acts : list action),
    at_rest w -> Forall (fun e => is_followup e = true) es ->
    snd (run es w acts) = acts /\ at_rest (fst (run es w acts)) /\
    maxRetries (fst (run es w acts)) = maxRetries w.
Proof.
  induction es as [|e es IH]; intros w acts Hw Hes; simpl; [done|].
  apply Forall_cons in Hes as [He Hes].
  destruct (step_followup_at_rest e w Hw He) as (Hnil & Hrest & Hmax).
  destruct (step e w) as [w' a]. simpl in *. subst a.
  rewrite app_nil_r. rewrite <- Hmax. by apply IH.
Qed.

End AutoSyncFacts.

Section AutoSyncEpisode.
Import AutoSync.

(** A trigger that arrives at rest starts an episode. *)
Lemma trigger_starts_episode (e : event) (w : world) :
  at_rest w -> is_trigger e = true ->
  running (retryCount w) (maxRetries w) (fst (step e w)) (snd (step e w)).
Proof.
  intros [Ht Ha] He.
  assert (Hgo : forall w', timeouts w' = ∅ -> awaiting w' = 0 ->
            running (retryCount w') (maxRetries w')
              (fst (attemptSync w')) (snd (attemptSync w'))).
  { intros w' Ht' Ha'. unfold attemptSync.
    destruct (onLine w'); simpl; unfold running, one_token; simpl;
      rewrite Ha';
      (split; [done|]); (split; [set_solver|]);
      (split; [by rewrite Nat.add_0_r|]);
      (split; [by left|]); left; (split; [done|lia]). }
  destruct e; try discriminate; simpl.
  - by apply (Hgo (set_onLine true w)).
  - by apply Hgo.
Qed.

(** Events that are not triggers keep an episode in one of its phases. *)
Lemma step_keeps_episode (c0 : nat) (M : Q) (e : event) (w : world)
    (acts : list action) :
  is_followup e = true ->
  episode_inv c0 M w acts ->
  episode_inv c0 M (fst (step e w)) (acts ++ snd (step e w)).
Proof.
  intros He [(HM & Hcap & Hcount & Hle & Htok) | (HM & Hrest & Hcap & Hle)].
  2:{ destruct (step_followup_at_rest e w Hrest He) as (-> & Hrest' & HM').
      right. rewrite app_nil_r. unfold stopped. by rewrite HM'. }
  destruct e; try discriminate; simpl.
  - (* connectivity is lost *)
    left. rewrite app_nil_r. done.
  - (* a timeout expires *)
    destruct (decide (t ∈ timeouts w)) as [Hin|_];
      [|left; rewrite app_nil_r; done].
    destruct Htok as [[Ht _]|[Ha [t' Ht']]]; [rewrite Ht in Hin; set_solver|].
    assert (Hempty : timeouts w ∖ {[t]} = ∅)
      by (rewrite Ht' in Hin |- *; set_solver).
    left. unfold attemptSync. simpl.
    destruct (onLine w); simpl; unfold running, one_token; simpl;
      rewrite scheduled_app, Nat.add_0_r;
      (split; [done|]); (split; [set_solver|]); (split; [done|]);
      (split; [done|]); left; (split; [done|]); lia.
  - (* the awaited callback rejects *)
    destruct (awaiting w) as [|n] eqn:Ha; [left; rewrite app_nil_r; done|].
    destruct Htok as [[Ht Hn]|[Ha' _]]; [|congruence].
    assert (n = 0) as -> by lia.
    unfold attemptSync_rejected, scheduleRetry. simpl.
    destruct (Qle_bool (maxRetries w) (num (retryCount w))) eqn:Hguard;
      simpl.
    + right. unfold stopped, at_rest. simpl.
      rewrite scheduled_app. simpl.
      split; [done|]. split; [done|]. split; [set_solver|].
      unfold scheduled at 2. simpl. rewrite Nat.add_0_r.
      destruct Hle as [->|Hlt]; [by left|].
      apply (allowed_le _ _ (retryCount w)); [lia|by right].
    + apply scheduleRetry_guard in Hguard. left. unfold running. simpl.
      rewrite scheduled_app.
      assert (Hone : forall w1, timeouts w1 = ∅ -> awaiting w1 = 0 ->
                timeouts (clearRetryTimer w1) = ∅ /\
                awaiting (clearRetryTimer w1) = 0 /\
                maxRetries (clearRetryTimer w1) = maxRetries w1 /\
                retryCount (clearRetryTimer w1) = retryCount w1).
      { intros w1 H1 H2. unfold clearRetryTimer.
        destruct (retryTimer w1); simpl; [|done].
        rewrite H1. repeat split; try done. set_solver. }
      destruct (Hone (set_retryCount (S (retryCount w)) (set_awaiting 0 w))
                  Ht eq_refl) as (Hc1 & Hc2 & Hc3 & Hc4).
      simpl in *. rewrite Hc1, Hc2, Hc3, Hc4.
      split; [done|]. split.
      { intros Hin. apply elem_of_app in Hin as [Hin|Hin]; [done|].
        apply list_elem_of_singleton in Hin. discriminate. }
      unfold scheduled at 2 4. simpl.
      split; [lia|]. split.
      { right. rewrite Nat.sub_0_r. by rewrite <- HM. }
      right. split; [done|]. eexists. by rewrite (right_id_L ∅ (∪)).
Qed.

Lemma run_keeps_episode (c0 : nat) (M : Q) (es : list event) :
  forall (w : world) (acts : list action),
    Forall (fun e => is_followup e = true) es ->
    episode_inv c0 M w acts ->
    episode_inv c0 M (fst (run es w acts)) (snd (run es w acts)).
Proof.
  induction es as [|e es IH]; intros w acts Hes Hinv; simpl; [done|].
  apply Forall_cons in Hes as [He Hes].
  pose proof (step_keeps_episode c0 M e w acts He Hinv) as Hstep.
  destruct (step e w) as [w' a]. by apply IH.
Qed.

Lemma episode_bound (c0 : nat) (M : Q) (w : world) (acts : list action) :
  episode_inv c0 M w acts -> allowed M (scheduled acts).
Proof.
  intros [(_ & _ & Hcount & Hle & _) | (_ & _ & _ & Hle)]; [|done].
  destruct Hle as [->|Hlt]; [by left|].
  apply (allowed_le _ _ (retryCount w)); [lia|by right].
Qed.

Lemma episode_stopped (c0 : nat) (M : Q) (w : world) (acts : list action) :
  episode_inv c0 M w acts -> MaxRetriesReached ∈ acts -> at_rest w.
Proof.
  intros [(_ & Hcap & _) | (_ & Hrest & _)] Hin; done.
Qed.

End AutoSyncEpisode.

Section AutoSyncClaims.
Import AutoSync Samples.

(** The constructor: the manager starts at rest, with
    [options.maxRetries || 5] as its cap. *)
Lemma construct_at_rest (opts : options) (online : bool) :
  at_rest (construct opts online) /\
  retryCount (construct opts online) = 0 /\
  maxRetries (construct opts online) = or_default (opt_maxRetries opts) 5.
Proof. done. Qed.

Lemma construct_default_maxRetries (interval : option Z) (online : bool) :
  maxRetries (construct (mkOptions interval None) online) = 5%Q /\
  maxRetries (construct (mkOptions interval (Some 0%Q)) online) = 5%Q.
Proof. done. Qed.

(** The retry cap from rest. Take a manager at rest (no retry timer
    pending, no callback awaited), a trigger (the window's online event or
    a call of [attemptSync]), and after it any sequence of timer expiries,
    callback rejections and losses of connectivity. The number of retries
    scheduled is one that [maxRetries] allows; and once "Max retry attempts
    reached" has been logged the manager is at rest again, and no further
    event of that kind makes it do anything. *)
Lemma retry_cap (w0 : world) (trigger : event) (evs : list event) :
  at_rest w0 ->
  is_trigger trigger = true ->
  Forall (fun e => is_followup e = true) evs ->
  let w1 := fst (run (trigger :: evs) w0 []) in
  let acts := snd (run (trigger :: evs) w0 []) in
  allowed (maxRetries w0) (scheduled acts) /\
  (MaxRetriesReached ∈ acts ->
   at_rest w1 /\
   forall more, Forall (fun e => is_followup e = true) more ->
     snd (run more w1 acts) = acts).
Proof.
  intros Hrest Htrig Hevs. simpl.
  pose proof (trigger_starts_episode trigger w0 Hrest Htrig) as Hstart.
  destruct (step trigger w0) as [w a]. simpl in Hstart.
  pose proof (run_keeps_episode _ _ evs w a Hevs (or_introl Hstart)) as Hinv.
  split; [by apply episode_bound in Hinv|].
  intros Hcap. pose proof (episode_stopped _ _ _ _ Hinv Hcap) as Hrest1.
  split; [done|]. intros more Hmore.
  by apply run_followups_at_rest.
Qed.

Lemma retry_cap_default :
  scheduled (snd (run (ExplicitSync :: failing_followups)
                    default_manager [])) <= 5 /\
  at_rest (fst (run (ExplicitSync :: failing_followups)
                  default_manager [])).
Proof.
  assert (Hf : Forall (fun e => is_followup e = true) failing_followups)
    by (repeat constructor).
  destruct (retry_cap default_manager ExplicitSync failing_followups
              (proj1 (construct_at_rest _ _)) eq_refl Hf) as [Hle Hstop].
  split; [by apply (allowed_integral 5) in Hle|].
  apply Hstop. vm_compute.
  do 11 apply list_elem_of_further. apply list_elem_of_here.
Qed.

(** The default manager, one call of [attemptSync] and a callback that
    always rejects: retries 1 to 5 are scheduled, then the cap is logged. *)
Example retry_cap_default_run :
  snd (run (ExplicitSync :: failing_followups) default_manager []) =
  [ CallbackCalled; RetryScheduled 1 30000;
    CallbackCalled; RetryScheduled 2 30000;
    CallbackCalled; RetryScheduled 3 30000;
    CallbackCalled; RetryScheduled 4 30000;
    CallbackCalled; RetryScheduled 5 30000;
    CallbackCalled; MaxRetriesReached ].
Proof. vm_compute. reflexivity. Qed.

(** The option is not checked: from rest, [{ maxRetries: 2.5 }] lets three
    retries be scheduled, and [{ maxRetries: -1 }] none. *)
Example retry_cap_unchecked_option :
  snd (run [ ExplicitSync; CallbackRejects; TimerFires 1; CallbackRejects;
             TimerFires 2; CallbackRejects; TimerFires 3; CallbackRejects ]
         fractional_cap_manager []) =
  [ CallbackCalled; RetryScheduled 1 30000;
    CallbackCalled; RetryScheduled 2 30000;
    CallbackCalled; RetryScheduled 3 30000;
    CallbackCalled; MaxRetriesReached ] /\
  snd (run [ExplicitSync; CallbackRejects] negative_cap_manager []) =
  [ CallbackCalled; MaxRetriesReached ].
Proof. split; vm_compute; reflexivity. Qed.

(** C6 does not hold of the code. The cap branch of [scheduleRetry] sets
    [retryCount] to zero and returns without [clearRetryTimer()], so a
    timer that is pending when the cap is logged still expires and starts
    the count afresh. With [maxRetries] 2: a sync and its first retry fail,
    so the timer of retry 2 is pending and no callback is awaited; the
    window's online event arrives and its callback rejects, which logs
    "Max retry attempts reached"; then, with no further trigger, the
    pending timer expires and retries 1 and 2 are scheduled again before
    the cap is logged a second time. At no moment is more than one
    callback awaited. *)
Theorem retry_cap_fails_with_pending_timer :
  maxRetries two_retries_manager = 2%Q /\
  snd (run first_failures two_retries_manager []) =
    [ CallbackCalled; RetryScheduled 1 30000;
      CallbackCalled; RetryScheduled 2 30000 ] /\
  awaiting (fst (run first_failures two_retries_manager [])) = 0 /\
  retryTimer (fst (run first_failures two_retries_manager [])) =
    Some 2%positive /\
  2%positive ∈ timeouts (fst (run first_failures two_retries_manager [])) /\
  is_trigger WindowOnline = true /\
  Forall (fun e => is_followup e = true) online_followups /\
  snd (run (WindowOnline :: online_followups)
         (fst (run first_failures two_retries_manager [])) []) =
    [ CallbackCalled; MaxRetriesReached;
      CallbackCalled; RetryScheduled 1 30000;
      CallbackCalled; RetryScheduled 2 30000;
      CallbackCalled; MaxRetriesReached ] /\
  (forall k,
     awaiting
       (fst (run (take k (first_failures ++
                          WindowOnline :: online_followups)%list)
               two_retries_manager [])) <= 1).
Proof.
  split; [reflexivity|].
  split; [vm_compute; reflexivity|].
  split; [vm_compute; reflexivity|].
  split; [vm_compute; reflexivity|].
  split; [by vm_compute|].
  split; [reflexivity|].
  split; [repeat constructor|].
  split; [vm_compute; reflexivity|].
  intros k. do 13 (destruct k as [|k]; [vm_compute; lia|]).
  vm_compute. lia.
Qed.

(** C10: while [navigator.onLine] is false, [attemptSync] returns at its
    guard: the callback is not called, and the manager (retry count, retry
    timer, pending timeouts) is as before. No event makes the manager call
    its callback unless connectivity is reported online at that moment. *)
Theorem attemptSync_offline_guard (w : world) :
  onLine w = false ->
  attemptSync w = (w, [SyncPostponed]) /\
  (forall e, CallbackCalled ∈ snd (step e w) -> e = WindowOnline) /\
  (forall e w', CallbackCalled ∈ snd (step e w') ->
     onLine (fst (step e w')) = true).
Proof.
  intros Hoff.
  assert (Hcall : forall w', CallbackCalled ∈ snd (attemptSync w') ->
            onLine w' = true /\ onLine (fst (attemptSync w')) = true).
  { intros w' Hin. unfold attemptSync in *.
    destruct (onLine w') eqn:Hon; simpl in *; [by rewrite Hon|].
    apply list_elem_of_singleton in Hin. discriminate. }
  assert (Hsched : forall w', CallbackCalled ∉ snd (scheduleRetry w')).
  { intros w' Hin. unfold scheduleRetry in Hin.
    destruct (Qle_bool (maxRetries w') (num (retryCount w')));
      simpl in Hin; apply list_elem_of_singleton in Hin; discriminate. }
  split; [by apply attemptSync_offline|]. split.
  - intros e Hin. destruct e; unfold step in Hin; [done|..].
    + by apply elem_of_nil in Hin.
    + apply Hcall in Hin as [Hon _]. congruence.
    + destruct (decide (t ∈ timeouts w));
        [|by apply elem_of_nil in Hin].
      apply Hcall in Hin as [Hon _]. simpl in Hon. congruence.
    + destruct (awaiting w); [by apply elem_of_nil in Hin|].
      apply list_elem_of_singleton in Hin. discriminate.
    + destruct (awaiting w); [by apply elem_of_nil in Hin|].
      by apply Hsched in Hin.
  - intros e w' Hin. destruct e; unfold step in *.
    + by apply Hcall in Hin as [_ Hon].
    + by apply elem_of_nil in Hin.
    + by apply Hcall in Hin as [_ Hon].
    + destruct (decide (t ∈ timeouts w'));
        [|by apply elem_of_nil in Hin].
      by apply Hcall in Hin as [_ Hon].
    + destruct (awaiting w'); [by apply elem_of_nil in Hin|].
      apply list_elem_of_singleton in Hin. discriminate.
    + destruct (awaiting w'); [by apply elem_of_nil in Hin|].
      by apply Hsched in Hin.
Qed.

End AutoSyncClaims.

Section RouterFacts.
Import Router.

Lemma caches_keys_put (name key : string) (r : response) (cs : storage) :
  caches_keys (cache_put name key r cs) = caches_keys cs.
Proof.
  unfold caches_keys, cache_put. destruct (put_accepted r); [|done].
  rewrite map_map. apply map_ext.
  intros [n c]. simpl. by destruct (n =? name).
Qed.

Lemma caches_keys_addAll (name : string) (net : network)
    (urls : list string) (cs : storage) :
  caches_keys (fst (cache_addAll name net urls cs)) = caches_keys cs.
Proof.
  unfold cache_addAll. destruct (fetch_all net urls) as [rs|]; [|done].
  simpl. revert cs. induction rs as [|[u r] rs IH]; intros cs; simpl; [done|].
  by rewrite IH, caches_keys_put.
Qed.

Lemma existsb_eqb_elem_of (name : string) (names : list string) :
  existsb (String.eqb name) names = true <-> name ∈ names.
Proof.
  rewrite existsb_exists, list_elem_of_In. split.
  - intros (x & Hin & Heq). apply String.eqb_eq in Heq. by subst.
  - intros Hin. exists name. split; [done|]. apply String.eqb_refl.
Qed.

(** [caches.open] creates the cache if need be and keeps names unique. *)
Lemma caches_open_keys (name : string) (cs : storage) :
  NoDup (caches_keys cs) ->
  name ∈ caches_keys (caches_open name cs) /\
  NoDup (caches_keys (caches_open name cs)).
Proof.
  intros Hnd. unfold caches_open.
  destruct (existsb (String.eqb name) (caches_keys cs)) eqn:Hex.
  - split; [by apply existsb_eqb_elem_of|done].
  - assert (Hfresh : name ∉ caches_keys cs).
    { intros Hin. apply existsb_eqb_elem_of in Hin. congruence. }
    unfold caches_keys in *. rewrite map_app. simpl. split.
    + apply elem_of_app. right. apply list_elem_of_here.
    + apply NoDup_app. split; [done|]. split; [|apply NoDup_singleton].
      intros x Hx Hin. apply list_elem_of_singleton in Hin. by subst.
Qed.

Lemma filter_all {A} (P : A -> Prop) `{!forall x, Decision (P x)}
    (l : list A) :
  (forall x, P x) -> filter P l = l.
Proof.
  intros HP. induction l as [|x l IH]; [done|].
  rewrite filter_cons_True by done. by f_equal.
Qed.

(** The loop of the 'activate' listener, from any list of names. *)
Lemma activate_loop (names : list string) :
  forall acc : storage,
    fold_left
      (fun acc cacheName =>
         if negb (cacheName =? CACHE_NAME) then caches_delete cacheName acc
         else acc)
      names acc =
    filter (fun nc => fst nc = CACHE_NAME \/ fst nc ∉ names) acc.
Proof.
  induction names as [|n names IH]; intros acc.
  - simpl. symmetry. apply filter_all. intros nc. right.
    apply not_elem_of_nil.
  - simpl. rewrite IH. destruct (n =? CACHE_NAME) eqn:Hn; simpl.
    + apply String.eqb_eq in Hn. subst n. apply list_filter_iff.
      intros nc. rewrite not_elem_of_cons.
      destruct (decide (fst nc = CACHE_NAME)); tauto.
    + apply String.eqb_neq in Hn. unfold caches_delete.
      etrans; [apply list_filter_filter|]. apply list_filter_iff.
      intros nc. rewrite not_elem_of_cons. split.
      * intros [[->|H] Hne]; [by left|tauto].
      * intros [->|[H1 H2]]; [split; [by left|congruence]|tauto].
Qed.

(** After activation the caches are those named [CACHE_NAME]. *)
Lemma activate_filter (cs : storage) :
  activate cs = filter (fun nc => fst nc = CACHE_NAME) cs.
Proof.
  unfold activate. rewrite activate_loop.
  induction cs as [|nc cs IH]; [done|].
  assert (Hmono : forall l : storage,
            (forall x, x ∈ l -> fst x ∈ caches_keys (nc :: cs)) ->
            filter (fun x => fst x = CACHE_NAME \/
                             fst x ∉ caches_keys (nc :: cs)) l =
            filter (fun x => fst x = CACHE_NAME) l).
  { clear IH. induction l as [|x l IHl]; intros Hl; [done|].
    rewrite !filter_cons.
    assert (Hx : fst x ∈ caches_keys (nc :: cs)) by (apply Hl; by left).
    rewrite IHl by (intros y Hy; apply Hl; by right).
    destruct (decide (fst x = CACHE_NAME)) as [Heq|Hne].
    - rewrite decide_True by (by left). done.
    - rewrite decide_False by tauto. done. }
  apply Hmono. intros x Hx. unfold caches_keys.
  apply list_elem_of_fmap. by exists x.
Qed.

Lemma filter_eq_NoDup (x : string) (l : list string) :
  NoDup l -> x ∈ l -> filter (fun y => y = x) l = [x].
Proof.
  induction l as [|y l IH]; intros Hnd Hin; [by apply elem_of_nil in Hin|].
  apply NoDup_cons in Hnd as [Hy Hnd].
  destruct (decide (y = x)) as [->|Hne].
  - rewrite filter_cons_True by done. f_equal.
    clear IH Hin Hnd. induction l as [|z l IHl]; [done|].
    apply not_elem_of_cons in Hy as [Hz Hy].
    rewrite filter_cons_False by congruence. by apply IHl.
  - rewrite filter_cons_False by done. apply IH; [done|].
    apply elem_of_cons in Hin as [Heq|Hin]; [congruence|done].
Qed.

Lemma caches_keys_filter_current (cs : storage) :
  caches_keys (filter (fun nc => fst nc = CACHE_NAME) cs) =
  filter (fun name => name = CACHE_NAME) (caches_keys cs).
Proof.
  unfold caches_keys. induction cs as [|nc cs IH]; [done|].
  simpl. rewrite !filter_cons.
  destruct (decide (fst nc = CACHE_NAME)); simpl; by rewrite IH.
Qed.

End RouterFacts.

Section RouterClaims.
Import Router Samples.

(** Installation leaves a cache named [CACHE_NAME], and names unique. *)
Lemma install_keys (net : network) (cs : storage) :
  NoDup (caches_keys cs) ->
  CACHE_NAME ∈ caches_keys (fst (install net cs)) /\
  NoDup (caches_keys (fst (install net cs))).
Proof.
  intros Hnd. unfold install. rewrite caches_keys_addAll.
  by apply caches_open_keys.
Qed.

(** C7: the 'activate' listener deletes every cache whose name is not
    [CACHE_NAME] and keeps the one that is; after the installation and the
    activation of the worker, [caches.keys()] is exactly [[CACHE_NAME]]. *)
Theorem activate_one_generation (net : network) (cs : storage) :
  NoDup (caches_keys cs) ->
  (forall name, name ∈ caches_keys (activate cs) -> name = CACHE_NAME) /\
  (forall c, (CACHE_NAME, c) ∈ cs -> (CACHE_NAME, c) ∈ activate cs) /\
  caches_keys (activate (fst (install net cs))) = [CACHE_NAME].
Proof.
  intros Hnd. split; [|split].
  - intros name Hin. rewrite activate_filter in Hin.
    apply list_elem_of_fmap in Hin as (nc & -> & Hin).
    by apply list_elem_of_filter in Hin as [Hname _].
  - intros c Hin. rewrite activate_filter.
    by apply list_elem_of_filter.
  - destruct (install_keys net cs Hnd) as [Hin Hnd'].
    rewrite activate_filter.
    rewrite caches_keys_filter_current.
    by apply filter_eq_NoDup.
Qed.

Lemma activate_one_generation_witness :
  caches_keys old_caches = ["smartcapi-v0"; "smartcapi-beta"] /\
  caches_keys (activate (fst (install (fun _ => None) old_caches))) =
    [CACHE_NAME].
Proof.
  assert (Hnd : NoDup (caches_keys old_caches)).
  { apply (bool_decide_unpack _). vm_compute. reflexivity. }
  split; [reflexivity|].
  exact (proj2 (proj2 (activate_one_generation (fun _ => None) old_caches
                         Hnd))).
Defined.

(** A GET request to the API whose path matches no static file is served
    network first: one fetch; its response is served, and cached exactly
    when its status is ok; when the fetch fails, the cached copy for the
    request's URL is served if there is one, the 503 answer otherwise. *)
Lemma onFetch_api_network_first (net : network) (cs : storage)
    (req : request) :
  method req = "GET" ->
  startsWith (pathname req) "/api/" = true ->
  is_static (pathname req) = false ->
  fetches (onFetch net cs req) = [req] /\
  (forall r, net req = Some r ->
     reply (onFetch net cs req) = RespondWith (Some r) /\
     caches_after (onFetch net cs req) =
       if ok r
       then cache_put CACHE_NAME (url req) r (caches_open CACHE_NAME cs)
       else cs) /\
  (net req = None ->
     caches_after (onFetch net cs req) = cs /\
     reply (onFetch net cs req) =
       RespondWith
         (Some (match caches_match (url req) cs with
                | Some cachedResponse => cachedResponse
                | None => offline_response
                end))).
Proof.
  intros Hget Hapi Hstatic. unfold onFetch, networkFirstApi.
  rewrite Hget, Hstatic, Hapi. simpl.
  destruct (net req) as [r|]; simpl.
  - split; [done|]. split; [|done]. by intros r' [= <-].
  - split; [done|]. split; [done|]. intros _. done.
Qed.

Example onFetch_health_offline :
  onFetch (fun _ => None) old_caches health_request =
  mkHandled (RespondWith (Some offline_response)) old_caches
            [health_request] /\
  status offline_response = 503%Z.
Proof. split; vm_compute; reflexivity. Qed.

(** C8, at the failing input: a GET request for "/api/interviews/". Its
    path ends with the static file "/", so the listener answers it cache
    first: the copy found in the cache is served and [fetch] is not called,
    although the network would have answered. *)
Theorem onFetch_api_path_ending_in_slash :
  method listing_request = "GET" /\
  startsWith (pathname listing_request) "/api/" = true /\
  is_static (pathname listing_request) = true /\
  listing_net listing_request = Some fresh_listing /\
  onFetch listing_net listing_cached listing_request =
    mkHandled (RespondWith (Some stale_listing)) listing_cached [].
Proof. repeat split; vm_compute; reflexivity. Qed.

End RouterClaims.

Section AutoSyncOffline.
Import AutoSync.

Lemma attemptSync_offline_guard_witness :
  attemptSync (construct (mkOptions None None) false) =
    (construct (mkOptions None None) false, [SyncPostponed]).
Proof.
  exact (proj1 (attemptSync_offline_guard
                  (construct (mkOptions None None) false) eq_refl)).
Defined.

End AutoSyncOffline.

(** ** Further properties of the record store *)

Section LocalDbMore.
Import LocalDb Samples.

Lemma set_sync_status_same (r : record) :
  set_sync_status r (sync_status r) = r.
Proof. by destruct r. Qed.

Lemma set_sync_status_twice (r : record) (st1 st2 : string) :
  set_sync_status (set_sync_status r st1) st2 = set_sync_status r st2.
Proof. done. Qed.

(** An update neither creates nor removes a record. *)
Lemma updateTranscriptStatus_get_None (v : variant) (k k' status : string)
    (s : store) :
  store_get k' (fst (updateTranscriptStatus v k status s)) = None <->
  store_get k' s = None.
Proof.
  destruct (decide (k' = k)) as [->|Hne].
  - destruct (store_get k s) as [r|] eqn:Hr.
    + rewrite (updateTranscriptStatus_get_eq _ _ _ _ _ Hr). done.
    + rewrite (updateTranscriptStatus_missing _ _ _ _ Hr). simpl.
      by rewrite Hr.
  - by rewrite updateTranscriptStatus_get_ne.
Qed.

(** A saved transcript can be read back under its uuid, is reported
    pending, and saving it changes nothing for the records with another
    uuid. *)
Theorem saveTranscript_pending (u : string) (now : Z) (sp tx : string)
    (s : store) :
  store_get u (saveTranscript u now sp tx s) =
    Some (mkRecord u sp tx now "pending") /\
  mkRecord u sp tx now "pending" ∈
    getPendingTranscripts (saveTranscript u now sp tx s) /\
  forall p, uuid p <> u ->
    (p ∈ getPendingTranscripts (saveTranscript u now sp tx s) <->
     p ∈ getPendingTranscripts s).
Proof.
  unfold saveTranscript.
  pose proof (store_get_put_eq (mkRecord u sp tx now "pending") s) as Hget.
  split; [exact Hget|]. split.
  - apply elem_of_getPendingTranscripts. by split.
  - intros p Hp. rewrite !elem_of_getPendingTranscripts.
    by rewrite store_get_put_ne.
Qed.

Lemma saveTranscript_pending_witness :
  mkRecord "u-1" "spk-1" "selamat pagi" 1000 "pending" ∈
    getPendingTranscripts (saveTranscript "u-2" 2000 "spk-2" "ya" one_pending).
Proof.
  apply (proj2 (proj2 (saveTranscript_pending "u-2" 2000 "spk-2" "ya"
                         one_pending))); [discriminate|].
  apply elem_of_getPendingTranscripts. split; vm_compute; reflexivity.
Defined.

(** Setting a status other than "pending" takes exactly the record with
    that uuid out of the pending records; when there is no such record the
    pending records are the same. *)
Theorem updateTranscriptStatus_pending (v : variant) (k status : string)
    (s : store) :
  status <> "pending" ->
  forall p,
    p ∈ getPendingTranscripts (fst (updateTranscriptStatus v k status s)) <->
    p ∈ getPendingTranscripts s /\ uuid p <> k.
Proof.
  intros Hst p. rewrite !elem_of_getPendingTranscripts.
  destruct (decide (uuid p = k)) as [<-|Hne].
  - split; [|tauto]. intros [Hget Hp]. exfalso.
    destruct (store_get (uuid p) s) as [r|] eqn:Hr.
    + rewrite (updateTranscriptStatus_get_eq _ _ _ _ _ Hr) in Hget.
      injection Hget as <-. simpl in Hp. congruence.
    + apply (updateTranscriptStatus_get_None v (uuid p) (uuid p) status)
        in Hr. congruence.
  - rewrite updateTranscriptStatus_get_ne by done. tauto.
Qed.

Lemma updateTranscriptStatus_pending_witness :
  mkRecord "u-1" "spk-1" "apa kabar" 1001 "pending" ∈
    getPendingTranscripts
      (fst (updateTranscriptStatus Client "u-2" "synced" three_pending)).
Proof.
  apply (updateTranscriptStatus_pending Client "u-2" "synced" three_pending
           ltac:(discriminate)).
  split; [|discriminate].
  apply elem_of_getPendingTranscripts. split; vm_compute; reflexivity.
Defined.

(** Two updates of the same record in a row leave the store the second one
    alone would leave: the last status wins, and repeating an update
    changes nothing. *)
Theorem updateTranscriptStatus_last_wins (v : variant) (k st1 st2 : string)
    (s : store) :
  updateTranscriptStatus v k st2
    (fst (updateTranscriptStatus v k st1 s)) =
  updateTranscriptStatus v k st2 s.
Proof.
  destruct (store_get k s) as [r|] eqn:Hr.
  - pose proof (updateTranscriptStatus_get_eq v k st1 s r Hr) as H1.
    rewrite (updateTranscriptStatus_found v k st2 _ _ H1).
    rewrite (updateTranscriptStatus_found v k st2 s r Hr).
    rewrite (updateTranscriptStatus_found v k st1 s r Hr). simpl.
    f_equal. unfold store_put. simpl. apply insert_insert_eq.
  - rewrite (updateTranscriptStatus_missing _ _ st1 _ Hr). done.
Qed.

End LocalDbMore.

(** ** Further properties of the sync orchestrator *)

Section SyncMoreFacts.
Import LocalDb Sync.

(** The statuses [newStatus] produces. *)
Lemma newStatus_values (v : variant) (r : result) (st : string) :
  newStatus v r = Some st -> st = "synced" \/ st = "conflict".
Proof.
  unfold newStatus. destruct v;
    destruct ((res_status r =? "created") || (res_status r =? "updated"));
    try destruct (res_status r =? "conflict"); intros [= <-]; tauto.
Qed.

(** Applying results neither creates nor removes a record. *)
Lemma applyResults_get_None (v : variant) (rs : list result) (k : string) :
  forall (s : store) (failed : option error),
    store_get k (fst (applyResults v rs s failed)) = None <->
    store_get k s = None.
Proof.
  induction rs as [|r rs IH]; intros s failed; simpl; [done|].
  destruct (newStatus v r) as [st|]; [|by apply IH].
  pose proof (updateTranscriptStatus_get_None v (res_uuid r) k st s) as Hu.
  destruct (updateTranscriptStatus v (res_uuid r) st s) as [s' [[]|e]];
    simpl in Hu; by rewrite IH.
Qed.

(** What applying results does to a stored record: it keeps everything but
    the status, and the status it ends with is the one it had, when no
    result with a status to store names it, or else the status computed
    for a result that names it. *)
Lemma applyResults_status (v : variant) (rs : list result) (k : string) :
  forall (s : store) (failed : option error) (r : record),
    store_get k s = Some r ->
    exists st,
      store_get k (fst (applyResults v rs s failed)) =
        Some (set_sync_status r st) /\
      ((st = sync_status r /\
        forall res, res ∈ rs -> res_uuid res = k -> newStatus v res = None) \/
       (exists res, res ∈ rs /\ res_uuid res = k /\
                    newStatus v res = Some st)).
Proof.
  induction rs as [|r0 rs IH]; intros s failed r Hr; simpl.
  - exists (sync_status r). rewrite set_sync_status_same. split; [done|].
    left. split; [done|]. intros res Hin. by apply elem_of_nil in Hin.
  - destruct (newStatus v r0) as [st0|] eqn:Hst0.
    + destruct (decide (res_uuid r0 = k)) as [Heq|Hne].
      * subst k.
        pose proof (updateTranscriptStatus_get_eq v _ st0 s r Hr) as Hu.
        rewrite (updateTranscriptStatus_found v _ st0 s r Hr) in Hu |- *.
        simpl in Hu.
        destruct (IH _ failed _ Hu) as (st & Hget & Hcase).
        exists st. rewrite Hget, set_sync_status_twice. split; [done|].
        right. destruct Hcase as [[-> _]|(res & Hin & Hk & Hres)].
        -- exists r0. split; [by left|]. done.
        -- exists res. split; [by right|]. done.
      * assert (Hk : k <> res_uuid r0) by congruence.
        pose proof (updateTranscriptStatus_get_ne v (res_uuid r0) k st0 s Hk)
          as Hu.
        assert (Hstep : forall s' f',
                  store_get k s' = store_get k s ->
                  exists st,
                    store_get k (fst (applyResults v rs s' f')) =
                      Some (set_sync_status r st) /\
                    ((st = sync_status r /\
                      forall res, res ∈ r0 :: rs -> res_uuid res = k ->
                                  newStatus v res = None) \/
                     (exists res, res ∈ r0 :: rs /\ res_uuid res = k /\
                                  newStatus v res = Some st))).
        { intros s' f' Hs'. rewrite <- Hs' in Hr.
          destruct (IH s' f' r Hr) as (st & Hget & Hcase).
          exists st. split; [done|].
          destruct Hcase as [[-> Hall]|(res & Hin & Hres)].
          - left. split; [done|]. intros res Hin Hres.
            apply elem_of_cons in Hin as [->|Hin]; [congruence|].
            by apply Hall.
          - right. exists res. split; [by right|done]. }
        destruct (updateTranscriptStatus v (res_uuid r0) st0 s)
          as [s' [[]|e]]; simpl in Hu; by apply Hstep.
    + destruct (IH s failed r Hr) as (st & Hget & Hcase).
      exists st. split; [done|].
      destruct Hcase as [[-> Hall]|(res & Hin & Hres)].
      * left. split; [done|]. intros res Hin Hres.
        apply elem_of_cons in Hin as [->|Hin]; [done|]. by apply Hall.
      * right. exists res. split; [by right|done].
Qed.

(** Once an update has rejected, that rejection is the one reported. *)
Lemma applyResults_failed (v : variant) (rs : list result) (e : error) :
  forall s : store, snd (applyResults v rs s (Some e)) = Some e.
Proof.
  induction rs as [|r rs IH]; intros s; simpl; [done|].
  destruct (newStatus v r) as [st|]; [|by apply IH].
  destruct (updateTranscriptStatus v (res_uuid r) st s) as [s' [[]|e']];
    by apply IH.
Qed.

(** The first result that names a missing record decides the rejection. *)
Lemma applyResults_first_missing (v : variant) (rs1 rs2 : list result)
    (r0 : result) (st0 : string) :
  forall s : store,
    (forall r, r ∈ rs1 ->
       newStatus v r = None \/ is_Some (store_get (res_uuid r) s)) ->
    newStatus v r0 = Some st0 ->
    store_get (res_uuid r0) s = None ->
    snd (applyResults v (rs1 ++ r0 :: rs2) s None) =
      Some (not_found v (res_uuid r0)).
Proof.
  induction rs1 as [|r rs1 IH]; intros s Hrs1 Hst0 Hmiss; simpl.
  - rewrite Hst0, (updateTranscriptStatus_missing _ _ _ _ Hmiss).
    apply applyResults_failed.
  - assert (Hrest : forall s',
              (forall k, store_get k s' = None <-> store_get k s = None) ->
              snd (applyResults v (rs1 ++ r0 :: rs2) s' None) =
                Some (not_found v (res_uuid r0))).
    { intros s' Hs'. apply IH; [|done|by apply Hs'].
      intros r' Hr'. destruct (Hrs1 r' ltac:(by right)) as [Hn|Hsome];
        [by left|right].
      apply not_eq_None_Some. rewrite Hs'. by apply not_eq_None_Some. }
    destruct (newStatus v r) as [st|] eqn:Hst; [|by apply Hrest].
    destruct (Hrs1 r ltac:(by left)) as [Hn|[p Hp]]; [congruence|].
    rewrite (updateTranscriptStatus_found _ _ st _ _ Hp).
    apply Hrest. intros k.
    pose proof (updateTranscriptStatus_get_None v (res_uuid r) k st s) as Hu.
    by rewrite (updateTranscriptStatus_found _ _ st _ _ Hp) in Hu.
Qed.

(** [syncWithServer] of syncService.js catches everything it throws. *)
Lemma syncWithServer_Client_resolves (net : network) (s : store) :
  settled (syncWithServer Client net s) = Resolved tt.
Proof.
  unfold syncWithServer.
  destruct (length (getPendingTranscripts s) =? 0)%nat; [done|].
  destruct (trySync Client (net (getPendingTranscripts s)) s)
    as [s' [e|]]; done.
Qed.

(** The store [syncWithServer] leaves is the one it found, or the one it
    found with the results of an ok answer applied. *)
Lemma syncWithServer_store (v : variant) (net : network) (s : store) :
  store_after (syncWithServer v net s) = s \/
  exists status rs,
    getPendingTranscripts s <> [] /\
    net (getPendingTranscripts s) = FetchResponse status (Some rs) /\
    ok status = true /\
    store_after (syncWithServer v net s) = fst (applyResults v rs s None) /\
    settled (syncWithServer v net s) =
      match snd (applyResults v rs s None) with
      | None => Resolved tt
      | Some e => catchSync v e
      end.
Proof.
  unfold syncWithServer.
  destruct (getPendingTranscripts s) as [|p ps] eqn:Hp; [by left|].
  simpl. rewrite <- Hp.
  destruct (net (getPendingTranscripts s)) as [|status [rs|]] eqn:Hnet;
    simpl; [by left| |destruct (negb (ok status)); by left].
  destruct (ok status) eqn:Hok; simpl; [|by left].
  right. exists status, rs.
  destruct (applyResults v rs s None) as [s' thrown]. simpl.
  repeat split; try done. rewrite Hp. done.
Qed.

End SyncMoreFacts.

Section SyncMore.
Import LocalDb Sync Samples.

(** An ok answer with results: the results are applied, and the promise
    settles by what [Promise.all] reports. *)
Lemma syncWithServer_ok (v : variant) (net : network) (s : store)
    (status : Z) (rs : list result) :
  getPendingTranscripts s <> [] ->
  net (getPendingTranscripts s) = FetchResponse status (Some rs) ->
  ok status = true ->
  store_after (syncWithServer v net s) = fst (applyResults v rs s None) /\
  posted (syncWithServer v net s) = [getPendingTranscripts s] /\
  settled (syncWithServer v net s) =
    match snd (applyResults v rs s None) with
    | None => Resolved tt
    | Some e => catchSync v e
    end.
Proof.
  intros Hne Hnet Hok. unfold syncWithServer.
  destruct (getPendingTranscripts s) as [|p ps] eqn:Hp; [done|].
  simpl. rewrite Hnet. simpl. rewrite Hok. simpl.
  by destruct (applyResults v rs s None) as [s' thrown].
Qed.

(** What [syncWithServer] leaves under a key. *)
Lemma syncWithServer_get_after (v : variant) (net : network)
    (s : store) (k : string) :
  match store_get k s with
  | Some r =>
      exists st,
        store_get k (store_after (syncWithServer v net s)) =
          Some (set_sync_status r st) /\
        (st = sync_status r \/ st = "synced" \/ st = "conflict")
  | None => store_get k (store_after (syncWithServer v net s)) = None
  end.
Proof.
  destruct (syncWithServer_store v net s)
    as [->|(status & rs & _ & _ & _ & -> & _)].
  - destruct (store_get k s) as [r|]; [|done].
    exists (sync_status r). rewrite set_sync_status_same. by split; [|left].
  - destruct (store_get k s) as [r|] eqn:Hr.
    + destruct (applyResults_status v rs k s None r Hr)
        as (st & Hget & Hcase).
      exists st. split; [done|].
      destruct Hcase as [[-> _]|(res & _ & _ & Hres)]; [by left|right].
      by apply newStatus_values in Hres.
    + by apply applyResults_get_None.
Qed.


(** Whatever the server answers, [syncWithServer] neither creates nor
    removes a record, and a stored record keeps its uuid, speaker, text and
    timestamp: at most its status changes, and then to "synced" or
    "conflict". *)
Theorem syncWithServer_keeps_records (v : variant) (net : network)
    (s : store) (k : string) :
  match store_get k s with
  | Some r =>
      exists st,
        store_get k (store_after (syncWithServer v net s)) =
          Some (set_sync_status r st) /\
        (st = sync_status r \/ st = "synced" \/ st = "conflict")
  | None => store_get k (store_after (syncWithServer v net s)) = None
  end.
Proof. apply syncWithServer_get_after. Qed.

(** A record that the server's results do not name is left exactly as it
    was, whatever else the answer contains and however the request ends. *)
Theorem syncWithServer_omitted_unchanged (v : variant) (net : network)
    (s : store) (k : string) :
  (forall status rs,
     net (getPendingTranscripts s) = FetchResponse status (Some rs) ->
     k ∉ map res_uuid rs) ->
  store_get k (store_after (syncWithServer v net s)) = store_get k s.
Proof.
  intros Hk.
  destruct (syncWithServer_store v net s)
    as [->|(status & rs & _ & Hnet & _ & -> & _)]; [done|].
  apply applyResults_get_other. by apply (Hk status).
Qed.

Lemma syncWithServer_omitted_unchanged_witness :
  store_get "u-2"
    (store_after
       (syncWithServer ServiceWorker
          (fun _ => FetchResponse 200 (Some [mkResult "u-1" "created"]))
          three_pending)) =
  store_get "u-2" three_pending.
Proof.
  apply syncWithServer_omitted_unchanged.
  intros status rs [= <- <-]. simpl.
  intros Hin. apply list_elem_of_singleton in Hin. discriminate.
Defined.

(** [syncWithServer] posts at most one batch; a batch it posts is not
    empty and holds only records that are stored as "pending": a record
    that is "synced" or "conflict" is never sent again. *)
Theorem syncWithServer_posts_pending (v : variant) (net : network)
    (s : store) :
  length (posted (syncWithServer v net s)) <= 1 /\
  forall batch, batch ∈ posted (syncWithServer v net s) ->
    batch <> [] /\
    forall r, r ∈ batch ->
      store_get (uuid r) s = Some r /\ sync_status r = "pending".
Proof.
  unfold syncWithServer.
  destruct (getPendingTranscripts s) as [|p ps] eqn:Hp; simpl.
  - split; [lia|]. intros batch Hin. by apply elem_of_nil in Hin.
  - destruct (trySync v (net (p :: ps)) s) as [s' thrown]. simpl.
    split; [lia|]. intros batch Hin.
    apply list_elem_of_singleton in Hin. subst batch. split; [done|].
    intros r Hr. rewrite <- Hp in Hr.
    by apply elem_of_getPendingTranscripts in Hr.
Qed.

Lemma syncWithServer_posts_pending_witness :
  store_get "u-1" one_pending =
    Some (mkRecord "u-1" "spk-1" "selamat pagi" 1000 "pending").
Proof.
  refine (proj1 (proj2 (proj2 (syncWithServer_posts_pending Client
                   (fun _ => FetchRejected) one_pending)
                   [mkRecord "u-1" "spk-1" "selamat pagi" 1000 "pending"] _)
                   (mkRecord "u-1" "spk-1" "selamat pagi" 1000 "pending") _)).
  - vm_compute. apply list_elem_of_here.
  - apply list_elem_of_here.
Defined.

(** When the server answers ok with results that name every pending record
    and each carry a status the code stores, no record is pending
    afterwards, and a further [syncWithServer] posts nothing. *)
Theorem syncWithServer_drains_queue (v : variant) (net : network)
    (s : store) (status : Z) (rs : list result) :
  net (getPendingTranscripts s) = FetchResponse status (Some rs) ->
  ok status = true ->
  (forall p, p ∈ getPendingTranscripts s ->
     exists r, r ∈ rs /\ res_uuid r = uuid p) ->
  (forall r, r ∈ rs -> newStatus v r <> None) ->
  getPendingTranscripts (store_after (syncWithServer v net s)) = [] /\
  forall v' net',
    syncWithServer v' net' (store_after (syncWithServer v net s)) =
    mkRun (store_after (syncWithServer v net s)) [] (Resolved tt).
Proof.
  intros Hnet Hok Hcover Hknown.
  assert (Hnone :
    getPendingTranscripts (store_after (syncWithServer v net s)) = []).
  { destruct (getPendingTranscripts s) as [|p0 ps] eqn:Hp.
    { unfold syncWithServer. by rewrite Hp. }
    assert (Hne : getPendingTranscripts s <> []) by (by rewrite Hp).
    rewrite <- Hp in Hnet, Hcover.
    destruct (syncWithServer_ok v net s status rs Hne Hnet Hok)
      as (-> & _ & _).
    destruct (getPendingTranscripts (fst (applyResults v rs s None)))
      as [|q qs] eqn:Hq; [done|]. exfalso.
    assert (Hin : q ∈ getPendingTranscripts (fst (applyResults v rs s None)))
      by (rewrite Hq; by left).
    apply elem_of_getPendingTranscripts in Hin as [Hget Hpend].
    destruct (store_get (uuid q) s) as [r|] eqn:Hr.
    - destruct (applyResults_status v rs (uuid q) s None r Hr)
        as (st & Hget' & Hcase).
      rewrite Hget in Hget'. injection Hget' as ->. simpl in Hpend.
      subst st.
      destruct Hcase as [[Hst Hall]|(res & _ & _ & Hres)].
      + assert (Hrp : r ∈ getPendingTranscripts s).
        { apply elem_of_getPendingTranscripts.
          rewrite (store_get_uuid _ _ _ Hr). by split. }
        destruct (Hcover r Hrp) as (res & Hres & Hu).
        apply (Hknown res Hres). apply Hall; [done|].
        by rewrite Hu, (store_get_uuid _ _ _ Hr).
      + apply newStatus_values in Hres as [?|?]; discriminate.
    - apply (applyResults_get_None v rs (uuid q) s None) in Hr.
      congruence. }
  split; [done|]. intros v' net'. unfold syncWithServer at 1.
  by rewrite Hnone.
Qed.

Lemma syncWithServer_drains_queue_witness :
  getPendingTranscripts
    (store_after (syncWithServer ServiceWorker three_net three_pending)) = [].
Proof.
  refine (proj1 (syncWithServer_drains_queue ServiceWorker three_net
                   three_pending 200 three_results eq_refl eq_refl _ _)).
  - intros p Hp. apply elem_of_getPendingTranscripts in Hp as [Hget Hst].
    pose proof (store_get_uuid _ _ _ Hget) as Hu.
    destruct (decide (uuid p = "u-1")) as [H1|H1];
      [exists (mkResult "u-1" "created"); split;
         [apply list_elem_of_here|by rewrite H1]|].
    destruct (decide (uuid p = "u-2")) as [H2|H2];
      [exists (mkResult "u-2" "updated"); split;
         [apply list_elem_of_further, list_elem_of_here|by rewrite H2]|].
    destruct (decide (uuid p = "u-3")) as [H3|H3];
      [exists (mkResult "u-3" "conflict"); split;
         [do 2 apply list_elem_of_further; apply list_elem_of_here
         |by rewrite H3]|].
    exfalso. unfold store_get, three_pending, saveTranscript, store_put in Hget.
    simpl in Hget.
    rewrite !lookup_insert_ne, lookup_empty in Hget by congruence.
    discriminate.
  - intros r _. done.
Defined.

(** When a result names a record that is not in the store, the other
    results are applied all the same; the worker's [syncWithServer] then
    rejects with "Record not found" for the first such result, and the one
    of syncService.js resolves. *)
Theorem syncWithServer_missing_record (v : variant) (net : network)
    (s : store) (status : Z) (rs1 rs2 : list result) (r0 : result)
    (st0 : string) :
  getPendingTranscripts s <> [] ->
  net (getPendingTranscripts s) =
    FetchResponse status (Some (rs1 ++ r0 :: rs2)%list) ->
  ok status = true ->
  (forall r, r ∈ rs1 ->
     newStatus v r = None \/ is_Some (store_get (res_uuid r) s)) ->
  newStatus v r0 = Some st0 ->
  store_get (res_uuid r0) s = None ->
  settled (syncWithServer v net s) =
    match v with
    | ServiceWorker =>
        Rejected (ErrReason ("Record not found: " ++ res_uuid r0))
    | Client => Resolved tt
    end /\
  (NoDup (map res_uuid (rs1 ++ r0 :: rs2)%list) ->
   forall r p st,
     r ∈ (rs1 ++ r0 :: rs2)%list ->
     store_get (res_uuid r) s = Some p ->
     newStatus v r = Some st ->
     store_get (res_uuid r) (store_after (syncWithServer v net s)) =
       Some (set_sync_status p st)).
Proof.
  intros Hne Hnet Hok Hrs1 Hst0 Hmiss.
  destruct (syncWithServer_ok v net s status _ Hne Hnet Hok)
    as (-> & _ & ->).
  rewrite (applyResults_first_missing v rs1 rs2 r0 st0 s Hrs1 Hst0 Hmiss).
  split; [by destruct v|].
  intros Hnd r p st Hr Hp Hst. by apply applyResults_get.
Qed.

Lemma syncWithServer_missing_record_witness :
  let net := fun _ : list record =>
    FetchResponse 200
      (Some [mkResult "u-9" "created"; mkResult "u-1" "created"]) in
  settled (syncWithServer ServiceWorker net one_pending) =
    Rejected (ErrReason "Record not found: u-9") /\
  store_get "u-1" (store_after (syncWithServer ServiceWorker net one_pending))
    = Some (mkRecord "u-1" "spk-1" "selamat pagi" 1000 "synced").
Proof.
  intros net.
  assert (Hne : getPendingTranscripts one_pending <> [])
    by (vm_compute; discriminate).
  assert (Hnd : NoDup (map res_uuid [mkResult "u-9" "created";
                                     mkResult "u-1" "created"])).
  { apply (bool_decide_unpack _). vm_compute. reflexivity. }
  destruct (syncWithServer_missing_record ServiceWorker net one_pending 200
              [] [mkResult "u-1" "created"] (mkResult "u-9" "created")
              "synced" Hne eq_refl eq_refl
              ltac:(intros r Hr; by apply elem_of_nil in Hr)
              eq_refl ltac:(vm_compute; reflexivity)) as [Hset Happ].
  split; [exact Hset|].
  refine (Happ Hnd (mkResult "u-1" "created")
            (mkRecord "u-1" "spk-1" "selamat pagi" 1000 "pending")
            "synced" _ _ eq_refl).
  - apply list_elem_of_further, list_elem_of_here.
  - vm_compute. reflexivity.
Defined.

End SyncMore.

(** ** Registration of the background sync and its caller *)

Section BackgroundMore.
Import LocalDb Sync Background Samples.

(** How [registerBackgroundSync] settles. It rejects in one case only:
    Background Sync is not available and the pending records cannot be
    read; then the rejection is that of the read. It never settles when
    Background Sync is available and no worker becomes ready. Whenever it
    does not resolve, nothing was posted, nothing registered, and the
    store is as it was. A failure of the network or of the registration
    never makes it reject. *)
Theorem registerBackgroundSync_settles (pf : platform)
    (read : storage_fault) (net : network) (s : store) :
  (forall e,
     reg_settled (registerBackgroundSync pf read net s) =
       Some (Rejected e) <->
     has_serviceWorker pf && has_SyncManager pf = false /\ read = Some e) /\
  (reg_settled (registerBackgroundSync pf read net s) = None <->
   has_serviceWorker pf && has_SyncManager pf = true /\
   worker_ready pf = false) /\
  (reg_settled (registerBackgroundSync pf read net s) <>
     Some (Resolved tt) ->
   reg_store (registerBackgroundSync pf read net s) = s /\
   reg_posted (registerBackgroundSync pf read net s) = [] /\
   reg_tags (registerBackgroundSync pf read net s) = []).
Proof.
  unfold registerBackgroundSync, syncWithServer_reading.
  destruct (has_serviceWorker pf && has_SyncManager pf); simpl.
  - destruct (worker_ready pf); simpl.
    + split; [intros e; split; [discriminate|by intros [? _]]|].
      split; [split; [discriminate|by intros [_ ?]]|]. done.
    + split; [intros e; split; [discriminate|by intros [? _]]|].
      split; [done|]. done.
  - destruct read as [e0|]; simpl.
    + split; [intros e; split; [by intros [= ->]|by intros [_ [= ->]]]|].
      split; [split; [discriminate|by intros [? _]]|]. done.
    + rewrite syncWithServer_Client_resolves.
      split; [intros e; split; [discriminate|by intros [_ ?]]|].
      split; [split; [discriminate|by intros [? _]]|]. done.
Qed.

Lemma registerBackgroundSync_settles_witness :
  reg_settled
    (registerBackgroundSync (mkPlatform false false true (fun _ => true))
       (Some (ErrReason "Error fetching data."))
       (fun _ => FetchRejected) one_pending) =
  Some (Rejected (ErrReason "Error fetching data.")).
Proof.
  exact (proj2 (proj1 (registerBackgroundSync_settles
                         (mkPlatform false false true (fun _ => true))
                         (Some (ErrReason "Error fetching data."))
                         (fun _ => FetchRejected) one_pending) _)
           (conj eq_refl eq_refl)).
Defined.

(** Every tag that [registerBackgroundSync] registers, and every tag that
    the network monitor registers when connectivity returns, is one for
    which the worker's 'sync' listener runs [syncWithServer]; the
    'periodicsync' listener ignores those tags, and the 'sync' listener
    ignores every tag but "transcript-sync". *)
Theorem sync_tags_are_handled (tag : string) :
  ((exists pf read net s,
      tag ∈ reg_tags (registerBackgroundSync pf read net s)) \/
   (exists has_sw has_sync now m,
      tag ∈ snd (Monitor.handleOnline has_sw has_sync now m)) ->
   forall net s,
     onSync tag net s = Some (syncWithServer ServiceWorker net s) /\
     onPeriodicSync tag net s = None) /\
  (tag <> "transcript-sync" -> forall net s, onSync tag net s = None).
Proof.
  split.
  - intros Hreg.
    assert (Htag : tag = "transcript-sync").
    { destruct Hreg
        as [(pf & read & net & s & Hin)|(sw & sy & now & m & Hin)].
      - unfold registerBackgroundSync in Hin.
        destruct (has_serviceWorker pf && has_SyncManager pf); simpl in Hin;
          [|by apply elem_of_nil in Hin].
        destruct (worker_ready pf); simpl in Hin;
          [|by apply elem_of_nil in Hin].
        destruct (register_resolves pf "transcript-sync");
          [|by apply elem_of_nil in Hin].
        by apply list_elem_of_singleton in Hin.
      - simpl in Hin. destruct (sw && sy); [|by apply elem_of_nil in Hin].
        by apply list_elem_of_singleton in Hin. }
    subst tag. done.
  - intros Hne net s. unfold onSync.
    apply String.eqb_neq in Hne. by rewrite Hne.
Qed.

Lemma sync_tags_are_handled_witness :
  onSync "transcript-sync" three_net three_pending =
    Some (syncWithServer ServiceWorker three_net three_pending) /\
  onSync "voice-sync" three_net three_pending = None.
Proof.
  split.
  - refine (proj1 (proj1 (sync_tags_are_handled "transcript-sync") _
                     three_net three_pending)).
    left. exists (mkPlatform true true true (fun _ => true)), None,
                 three_net, three_pending.
    apply list_elem_of_here.
  - exact (proj2 (sync_tags_are_handled "voice-sync") ltac:(discriminate)
             three_net three_pending).
Defined.



End BackgroundMore.

(** ** The network monitor *)

Section MonitorMore.
Import Monitor.

Lemma handle_all_app (has_sw has_sync : bool) (es1 es2 : list event)
    (m : monitor) :
  handle_all has_sw has_sync (es1 ++ es2) m =
  handle_all has_sw has_sync es2 (handle_all has_sw has_sync es1 m).
Proof. unfold handle_all. apply fold_left_app. Qed.

(** Changes of the link type leave connectivity and its times alone. *)
Lemma handle_all_changes (has_sw has_sync : bool) (es : list event) :
  forall m : monitor,
    Forall (fun e => is_change e = true) es ->
    isOnline (handle_all has_sw has_sync es m) = isOnline m /\
    lastOfflineTime (handle_all has_sw has_sync es m) = lastOfflineTime m.
Proof.
  induction es as [|e es IH]; intros m Hes; [done|].
  apply Forall_cons in Hes as [He Hes].
  destruct e as [t|t|conn]; try discriminate.
  change (handle_all has_sw has_sync (ConnectionChange conn :: es) m)
    with (handle_all has_sw has_sync es (handleConnectionChange conn m)).
  destruct (IH (handleConnectionChange conn m) Hes) as [-> ->].
  by destruct conn.
Qed.

(** The recorded time of the last loss of connectivity is the clock
    reading of some event. *)
Lemma handle_all_lastOffline (has_sw has_sync : bool) (now : Z)
    (es : list event) :
  forall m : monitor,
    Forall (happened_by now) es ->
    (forall t, lastOfflineTime m = Some t -> (t <= now)%Z) ->
    forall t, lastOfflineTime (handle_all has_sw has_sync es m) = Some t ->
              (t <= now)%Z.
Proof.
  induction es as [|e es IH]; intros m Hes Hm; [done|].
  apply Forall_cons in Hes as [He Hes].
  change (handle_all has_sw has_sync (e :: es) m)
    with (handle_all has_sw has_sync es (handle has_sw has_sync e m)).
  apply IH; [done|].
  destruct e as [t|t|[c|]]; simpl in *; try done.
  by intros t' [= <-].
Qed.

(** As long as no event carries a clock reading later than [now], the
    downtime reported at [now] is never negative, and it is zero while the
    monitor holds the device to be online. *)
Theorem getDowntimeDuration_bounds (has_sw has_sync onLine : bool)
    (conn : connection) (es : list event) (now : Z) :
  Forall (happened_by now) es ->
  (0 <= getDowntimeDuration now
          (handle_all has_sw has_sync es (init onLine conn)))%Z /\
  (isOnline (handle_all has_sw has_sync es (init onLine conn)) = true ->
   getDowntimeDuration now
     (handle_all has_sw has_sync es (init onLine conn)) = 0%Z).
Proof.
  intros Hes.
  pose proof (handle_all_lastOffline has_sw has_sync now es
                (init onLine conn) Hes ltac:(done)) as Hlast.
  unfold getDowntimeDuration.
  destruct (isOnline _); [done|]. split; [|done].
  destruct (lastOfflineTime _) as [t|]; [|done].
  specialize (Hlast t eq_refl). lia.
Qed.

Lemma getDowntimeDuration_bounds_witness :
  (0 <= getDowntimeDuration 5000
          (handle_all true true [Offline 1000; Online 2000; Offline 3000]
             (init true None)))%Z.
Proof.
  refine (proj1 (getDowntimeDuration_bounds true true true None
                   [Offline 1000; Online 2000; Offline 3000] 5000%Z _)).
  repeat constructor; simpl; lia.
Defined.

(** After a loss of connectivity at [t], and until the next online event,
    the monitor is offline, the quality is "offline" and the downtime at
    [now] is [now - t], whatever came before. A monitor loaded while the
    device is offline has seen no such event: it reports the quality
    "offline" but a downtime of zero. *)
Theorem getDowntimeDuration_since_offline (has_sw has_sync : bool)
    (m0 : monitor) (before changes : list event) (t now : Z) :
  Forall (fun e => is_change e = true) changes ->
  (let m := handle_all has_sw has_sync (before ++ Offline t :: changes) m0 in
   isOnline m = false /\
   getConnectionQuality m = "offline" /\
   getDowntimeDuration now m = (now - t)%Z) /\
  (forall conn,
     let m := handle_all has_sw has_sync changes (init false conn) in
     getConnectionQuality m = "offline" /\
     getDowntimeDuration now m = 0%Z).
Proof.
  intros Hch. split.
  - rewrite handle_all_app.
    change (handle_all has_sw has_sync (Offline t :: changes)
              (handle_all has_sw has_sync before m0))
      with (handle_all has_sw has_sync changes
              (handleOffline t (handle_all has_sw has_sync before m0))).
    destruct (handle_all_changes has_sw has_sync changes
                (handleOffline t (handle_all has_sw has_sync before m0)) Hch)
      as [Hon Hlast].
    simpl in Hon, Hlast. unfold getConnectionQuality, getDowntimeDuration.
    by rewrite Hon, Hlast.
  - intros conn.
    destruct (handle_all_changes has_sw has_sync changes (init false conn)
                Hch) as [Hon Hlast].
    simpl in Hon, Hlast. unfold getConnectionQuality, getDowntimeDuration.
    by rewrite Hon, Hlast.
Qed.

Lemma getDowntimeDuration_since_offline_witness :
  getDowntimeDuration 5000
    (handle_all true true
       ([Online 500] ++ Offline 3000 :: [ConnectionChange (Some (Some "2g"))])
       (init true None)) = 2000%Z.
Proof.
  exact (proj2 (proj2 (proj1 (getDowntimeDuration_since_offline true true
           (init true None) [Online 500]
           [ConnectionChange (Some (Some "2g"))] 3000 5000
           ltac:(repeat constructor))))).
Defined.

(** The quality is one of five words, and it is "offline" exactly when the
    monitor holds the device to be offline, whatever the link type. *)
Lemma getConnectionQuality_values (m : monitor) :
  getConnectionQuality m ∈
    ["offline"; "poor"; "moderate"; "good"; "unknown"] /\
  (getConnectionQuality m = "offline" <-> isOnline m = false).
Proof.
  unfold getConnectionQuality. destruct (isOnline m); simpl.
  - destruct ((connectionType m =? "slow-2g") || (connectionType m =? "2g"));
      [split; [set_solver|split; discriminate]|].
    destruct (connectionType m =? "3g");
      [split; [set_solver|split; discriminate]|].
    destruct ((connectionType m =? "4g") || (connectionType m =? "5g"));
      split; try set_solver; split; discriminate.
  - split; [set_solver|done].
Qed.

End MonitorMore.

(** ** The auto-sync manager over its whole life *)

Section AutoSyncLife.
Import AutoSync Samples.

Lemma clearRetryTimer_fields (w : world) :
  maxRetries (clearRetryTimer w) = maxRetries w /\
  retryInterval (clearRetryTimer w) = retryInterval w /\
  retryCount (clearRetryTimer w) = retryCount w /\
  awaiting (clearRetryTimer w) = awaiting w /\
  onLine (clearRetryTimer w) = onLine w /\
  retryTimer (clearRetryTimer w) = None.
Proof. unfold clearRetryTimer. by destruct (retryTimer w) eqn:H. Qed.

(** When the only pending timeout is the one in [retryTimer], clearing it
    leaves none. *)
Lemma clearRetryTimer_timeouts (w : world) :
  timeouts w ⊆ handle_set (retryTimer w) ->
  timeouts (clearRetryTimer w) = ∅.
Proof.
  unfold clearRetryTimer, handle_set.
  destruct (retryTimer w) as [t|]; simpl; set_solver.
Qed.

Lemma construct_well_formed (opts : options) (online : bool) :
  well_formed (construct opts online).
Proof.
  unfold well_formed, construct. simpl. split; [set_solver|by left].
Qed.

Lemma attemptSync_well_formed (w : world) :
  well_formed w ->
  well_formed (fst (attemptSync w)) /\
  maxRetries (fst (attemptSync w)) = maxRetries w /\
  retryInterval (fst (attemptSync w)) = retryInterval w /\
  forall n d, RetryScheduled n d ∉ snd (attemptSync w).
Proof.
  intros Hw. unfold attemptSync. destruct (onLine w); simpl;
    (split; [done|]); (split; [done|]); (split; [done|]);
    intros n d Hin; apply list_elem_of_singleton in Hin; discriminate.
Qed.

(** One event keeps the manager well formed, keeps its cap and interval,
    and schedules only retries numbered from one to the cap. *)
Lemma step_well_formed (e : event) (w : world) :
  well_formed w ->
  well_formed (fst (step e w)) /\
  maxRetries (fst (step e w)) = maxRetries w /\
  retryInterval (fst (step e w)) = retryInterval w /\
  retries_within (maxRetries w) (retryInterval w) (snd (step e w)).
Proof.
  intros Hw.
  assert (Hnone : forall acts : list action,
            (forall n d, RetryScheduled n d ∉ acts) ->
            retries_within (maxRetries w) (retryInterval w) acts).
  { intros acts Hacts n d Hin. by apply Hacts in Hin. }
  assert (Hattempt : forall w', well_formed w' ->
            maxRetries w' = maxRetries w ->
            retryInterval w' = retryInterval w ->
            well_formed (fst (attemptSync w')) /\
            maxRetries (fst (attemptSync w')) = maxRetries w /\
            retryInterval (fst (attemptSync w')) = retryInterval w /\
            retries_within (maxRetries w) (retryInterval w)
              (snd (attemptSync w'))).
  { intros w' Hw' HM Hd.
    destruct (attemptSync_well_formed w' Hw') as (H1 & H2 & H3 & H4).
    rewrite H2, H3. split; [done|]. split; [done|]. split; [done|].
    by apply Hnone. }
  assert (Hnil : retries_within (maxRetries w) (retryInterval w) []).
  { apply Hnone. intros n d Hin. by apply elem_of_nil in Hin. }
  assert (Hone : forall a, is_scheduled a = false ->
            retries_within (maxRetries w) (retryInterval w) [a]).
  { intros a Ha. apply Hnone. intros n d Hin.
    apply list_elem_of_singleton in Hin. by subst a. }
  destruct Hw as (Hsub & Hle).
  destruct e; unfold step.
  - apply Hattempt; done.
  - done.
  - apply Hattempt; done.
  - destruct (decide (t ∈ timeouts w)); [|done].
    apply Hattempt; try done.
    unfold well_formed. simpl. split; [set_solver|done].
  - destruct (awaiting w) as [|n]; [done|].
    unfold attemptSync_resolved. simpl.
    pose proof (clearRetryTimer_fields
                  (set_retryCount 0 (set_awaiting n w)))
      as (H1 & H2 & H3 & _ & _ & H5).
    pose proof (clearRetryTimer_timeouts
                  (set_retryCount 0 (set_awaiting n w)) Hsub) as H4.
    unfold well_formed. rewrite H1, H2, H3, H4, H5. simpl.
    split; [split; [set_solver|by left]|]. split; [done|]. split; [done|].
    by apply Hone.
  - destruct (awaiting w) as [|n]; [done|].
    unfold attemptSync_rejected, scheduleRetry. simpl.
    destruct (Qle_bool (maxRetries w) (num (retryCount w))) eqn:Hguard;
      simpl.
    + unfold well_formed. simpl.
      split; [split; [done|by left]|]. split; [done|]. split; [done|].
      by apply Hone.
    + apply scheduleRetry_guard in Hguard.
      pose proof (clearRetryTimer_fields
                    (set_retryCount (S (retryCount w)) (set_awaiting n w)))
        as (H1 & H2 & H3 & _).
      pose proof (clearRetryTimer_timeouts
                    (set_retryCount (S (retryCount w)) (set_awaiting n w))
                    Hsub) as H4.
      unfold well_formed. simpl in *. rewrite H1, H2, H3, H4. simpl.
      split; [split; [set_solver|]|].
      { by apply allowed_S. }
      split; [done|]. split; [done|].
      intros k d Hin. apply list_elem_of_singleton in Hin.
      injection Hin as -> ->.
      split; [lia|]. split; [|done]. by rewrite num_pred_S.
Qed.

Lemma run_well_formed (es : list event) :
  forall (w : world) (acts : list action) (M : Q) (d : Z),
    well_formed w -> maxRetries w = M -> retryInterval w = d ->
    retries_within M d acts ->
    well_formed (fst (run es w acts)) /\
    maxRetries (fst (run es w acts)) = M /\
    retryInterval (fst (run es w acts)) = d /\
    retries_within M d (snd (run es w acts)).
Proof.
  induction es as [|e es IH]; intros w acts M d Hw HM Hd Hacts; simpl;
    [done|].
  destruct (step_well_formed e w Hw) as (Hw' & HM' & Hd' & Hnew).
  destruct (step e w) as [w' a]. simpl in *.
  apply IH; try congruence.
  intros n delay Hin. apply elem_of_app in Hin as [Hin|Hin].
  - by apply Hacts.
  - subst M d. by apply Hnew.
Qed.

End AutoSyncLife.

Section AutoSyncLifeClaims.
Import AutoSync Samples.

(** Whatever happens to a manager after its construction (triggers that
    overlap, callbacks that resolve or reject, timers, losses of
    connectivity): at most one timeout of the manager is pending, and it
    is the one held in [retryTimer]; the cap and the interval stay what
    the constructor made of the options; [retryCount] is zero or exceeds
    by one a count that was below the cap when the guard of
    [scheduleRetry] read it; every retry scheduled carries such a number,
    from one on, and the delay [retryInterval]; and when the cap is
    negative no retry is ever scheduled and the counter stays zero. *)
Theorem manager_invariant (opts : options) (online : bool)
    (es : list event) :
  let w0 := construct opts online in
  let w := fst (run es w0 []) in
  timeouts w ⊆ handle_set (retryTimer w) /\
  size (timeouts w) <= 1 /\
  maxRetries w = or_default (opt_maxRetries opts) 5 /\
  retryInterval w = or_default_ms (opt_retryInterval opts) 30000 /\
  (retryCount w = 0 \/ (num (retryCount w - 1) < maxRetries w)%Q) /\
  (forall n delay, RetryScheduled n delay ∈ snd (run es w0 []) ->
     1 <= n /\ (num (n - 1) < maxRetries w)%Q /\
     delay = retryInterval w) /\
  ((maxRetries w <= 0)%Q ->
   retryCount w = 0 /\
   forall n delay, RetryScheduled n delay ∉ snd (run es w0 [])).
Proof.
  intros w0 w.
  destruct (run_well_formed es w0 [] (maxRetries w0) (retryInterval w0)
              (construct_well_formed opts online) eq_refl eq_refl
              ltac:(intros n d Hin; by apply elem_of_nil in Hin))
    as ((Hsub & Hle) & HM & Hd & Hacts).
  fold w in Hsub, Hle, HM, Hd. rewrite HM, Hd.
  split; [done|]. split.
  { apply subseteq_size in Hsub. unfold handle_set in Hsub.
    destruct (retryTimer w);
      [rewrite size_singleton in Hsub|rewrite size_empty in Hsub]; lia. }
  split; [done|]. split; [done|].
  split; [by rewrite HM in Hle|]. split; [exact Hacts|].
  intros Hneg. split.
  - rewrite HM in Hle. by apply (allowed_nonpositive _ _ Hneg).
  - intros n delay Hin. destruct (Hacts n delay Hin) as (Hn & Hlt & _).
    assert (n = 0) by (apply (allowed_nonpositive _ _ Hneg); by right).
    lia.
Qed.

Lemma manager_invariant_witness :
  retryCount
    (fst (run [ExplicitSync; CallbackRejects; WindowOnline; CallbackRejects]
            negative_cap_manager [])) = 0 /\
  forall n delay,
    RetryScheduled n delay ∉
    snd (run [ExplicitSync; CallbackRejects; WindowOnline; CallbackRejects]
           negative_cap_manager []).
Proof.
  exact (proj2 (proj2 (proj2 (proj2 (proj2 (proj2
           (manager_invariant (mkOptions None (Some (-1)%Q)) true
              [ExplicitSync; CallbackRejects; WindowOnline;
               CallbackRejects]))))))
           ltac:(discriminate)).
Defined.

(** A callback that resolves resets the manager, whatever went before:
    the counter is zero again and no retry is pending. *)
Theorem success_resets (opts : options) (online : bool) (es : list event) :
  let w := fst (run es (construct opts online) []) in
  awaiting w <> 0 ->
  snd (step CallbackResolves w) = [SyncSuccessful] /\
  retryCount (fst (step CallbackResolves w)) = 0 /\
  retryTimer (fst (step CallbackResolves w)) = None /\
  timeouts (fst (step CallbackResolves w)) = ∅ /\
  S (awaiting (fst (step CallbackResolves w))) = awaiting w.
Proof.
  intros w Haw.
  destruct (run_well_formed es (construct opts online) [] _ _
              (construct_well_formed opts online) eq_refl eq_refl
              ltac:(intros n d Hin; by apply elem_of_nil in Hin))
    as ((Hsub & _) & _).
  fold w in Hsub. unfold step.
  destruct (awaiting w) as [|n] eqn:Hn; [done|].
  unfold attemptSync_resolved. simpl.
  pose proof (clearRetryTimer_fields (set_retryCount 0 (set_awaiting n w)))
    as (_ & _ & H3 & H4 & _ & H5).
  pose proof (clearRetryTimer_timeouts
                (set_retryCount 0 (set_awaiting n w)) Hsub) as H6.
  rewrite H3, H4, H5, H6. done.
Qed.

Lemma success_resets_witness :
  retryCount
    (fst (step CallbackResolves
            (fst (run [ExplicitSync; CallbackRejects; TimerFires 1]
                    (construct (mkOptions None None) true) [])))) = 0 /\
  timeouts
    (fst (step CallbackResolves
            (fst (run [ExplicitSync; CallbackRejects; TimerFires 1]
                    (construct (mkOptions None None) true) [])))) = ∅.
Proof.
  destruct (success_resets (mkOptions None None) true
              [ExplicitSync; CallbackRejects; TimerFires 1]
              ltac:(vm_compute; discriminate))
    as (_ & Hc & _ & Ht & _).
  split; [exact Hc|exact Ht].
Defined.

(** [destroy()] cancels the pending retry and nothing else: afterwards no
    timeout of the manager is pending and the counter is what it was; but
    the listener for the window's online event is still there, so that
    event calls the callback again, and a callback that was awaited when
    [destroy()] was called still schedules a retry when it rejects. *)
Theorem destroy_cancels_retry_only (opts : options) (online : bool)
    (es : list event) :
  let w := fst (run es (construct opts online) []) in
  timeouts (destroy w) = ∅ /\
  retryTimer (destroy w) = None /\
  retryCount (destroy w) = retryCount w /\
  (forall t, step (TimerFires t) (destroy w) = (destroy w, [])) /\
  snd (step WindowOnline (destroy w)) = [CallbackCalled] /\
  (awaiting w <> 0 -> (num (retryCount w) < maxRetries w)%Q ->
   snd (step CallbackRejects (destroy w)) =
     [RetryScheduled (S (retryCount w)) (retryInterval w)]).
Proof.
  intros w.
  destruct (run_well_formed es (construct opts online) [] _ _
              (construct_well_formed opts online) eq_refl eq_refl
              ltac:(intros n d Hin; by apply elem_of_nil in Hin))
    as ((Hsub & _) & _).
  fold w in Hsub. unfold destroy.
  pose proof (clearRetryTimer_fields w) as (H1 & H2 & H3 & H4 & H5 & H6).
  pose proof (clearRetryTimer_timeouts w Hsub) as H7.
  split; [done|]. split; [done|]. split; [done|]. split; [|split].
  - intros t. unfold step. rewrite H7.
    destruct (decide (t ∈ (∅ : gset positive))) as [Hin|_]; [|done].
    set_solver.
  - done.
  - intros Haw Hlt. unfold step. rewrite H4.
    destruct (awaiting w) as [|n]; [done|].
    unfold attemptSync_rejected, scheduleRetry. simpl.
    rewrite H1, H3. apply scheduleRetry_guard in Hlt. rewrite Hlt. simpl.
    pose proof (clearRetryTimer_fields
                  (set_retryCount (S (retryCount w))
                     (set_awaiting n (clearRetryTimer w))))
      as (_ & H2' & H3' & _).
    simpl in H2', H3'. by rewrite H2', H3', H2.
Qed.

Lemma destroy_cancels_retry_only_witness :
  snd (step CallbackRejects
         (destroy (fst (run [ExplicitSync] default_manager [])))) =
  [RetryScheduled 1 30000].
Proof.
  exact (proj2 (proj2 (proj2 (proj2 (proj2
           (destroy_cancels_retry_only (mkOptions None None) true
              [ExplicitSync])))))
           ltac:(vm_compute; discriminate) ltac:(reflexivity)).
Defined.

End AutoSyncLifeClaims.

(** ** Further properties of the request router *)

Section RouterMoreFacts.
Import Router.

Lemma caches_match_app_empty (key name : string) (cs : storage) :
  caches_match key (cs ++ [(name, ∅)]) = caches_match key cs.
Proof.
  induction cs as [|[n c] cs IH]; simpl; [done|].
  by destruct (c !! key).
Qed.

(** Opening a cache changes no answer of [caches.match]. *)
Lemma caches_match_open (key name : string) (cs : storage) :
  caches_match key (caches_open name cs) = caches_match key cs.
Proof.
  unfold caches_open.
  destruct (existsb (String.eqb name) (caches_keys cs)); [done|].
  apply caches_match_app_empty.
Qed.

Lemma caches_open_elem (name : string) (cs : storage) :
  name ∈ caches_keys (caches_open name cs).
Proof.
  unfold caches_open.
  destruct (existsb (String.eqb name) (caches_keys cs)) eqn:Hex.
  - by apply existsb_eqb_elem_of.
  - unfold caches_keys. rewrite map_app. apply elem_of_app. right.
    apply list_elem_of_here.
Qed.

(** Storing under one URL changes no answer for another. *)
Lemma caches_match_put_ne (name key k : string) (r : response)
    (cs : storage) :
  key <> k ->
  caches_match key (cache_put name k r cs) = caches_match key cs.
Proof.
  intros Hne. unfold cache_put. destruct (put_accepted r); [|done].
  induction cs as [|[n c] cs IH]; simpl; [done|].
  destruct (n =? name); simpl; rewrite ?lookup_insert_ne by done;
    by rewrite IH.
Qed.

(** Storing a response that the cache takes under a URL that no cache
    holds, in a cache that exists, makes [caches.match] answer with what
    was stored. *)
Lemma caches_match_put_new (name key : string) (r : response)
    (cs : storage) :
  put_accepted r = true ->
  caches_match key cs = None ->
  name ∈ caches_keys cs ->
  caches_match key (cache_put name key r cs) = Some r.
Proof.
  intros Hacc. unfold cache_put. rewrite Hacc.
  induction cs as [|[n c] cs IH]; intros Hnone Hin; simpl in *.
  - by apply elem_of_nil in Hin.
  - destruct (c !! key) eqn:Hc; [done|].
    destruct (n =? name) eqn:Hn; simpl.
    + by rewrite lookup_insert_eq.
    + rewrite Hc. apply IH; [done|].
      apply elem_of_cons in Hin as [->|Hin]; [|done].
      by rewrite String.eqb_refl in Hn.
Qed.

(** When every cache has the same name, storing a response that the cache
    takes makes [caches.match] answer with what was stored. *)
Lemma caches_match_put_current (name key : string) (r : response)
    (cs : storage) :
  put_accepted r = true ->
  cs <> [] ->
  (forall nc, nc ∈ cs -> fst nc = name) ->
  caches_match key (cache_put name key r cs) = Some r.
Proof.
  intros Hacc Hne Hall. unfold cache_put. rewrite Hacc.
  destruct cs as [|[n c] cs]; [done|].
  pose proof (Hall (n, c) ltac:(by left)) as Hn. simpl in Hn. subst n.
  simpl. rewrite String.eqb_refl. simpl. by rewrite lookup_insert_eq.
Qed.

(** Storing a response that the cache refuses changes nothing. *)
Lemma cache_put_refused (name key : string) (r : response) (cs : storage) :
  put_accepted r = false -> cache_put name key r cs = cs.
Proof. intros Hacc. unfold cache_put. by rewrite Hacc. Qed.

Lemma caches_open_current (name : string) (cs : storage) :
  (forall nc, nc ∈ cs -> fst nc = name) ->
  caches_open name cs <> [] /\
  forall nc, nc ∈ caches_open name cs -> fst nc = name.
Proof.
  intros Hall. unfold caches_open.
  destruct (existsb (String.eqb name) (caches_keys cs)) eqn:Hex.
  - split; [|done]. intros ->. discriminate.
  - split; [by destruct cs|].
    intros nc Hin. apply elem_of_app in Hin as [Hin|Hin]; [by apply Hall|].
    apply list_elem_of_singleton in Hin. by subst nc.
Qed.

(** [caches.open] only ever appends the cache it was asked for. *)
Lemma caches_open_keys_app (name : string) (cs : storage) :
  caches_keys (caches_open name cs) = caches_keys cs \/
  caches_keys (caches_open name cs) = (caches_keys cs ++ [name])%list.
Proof.
  unfold caches_open.
  destruct (existsb (String.eqb name) (caches_keys cs)); [by left|].
  right. unfold caches_keys. by rewrite map_app.
Qed.

Lemma endsWith_refl (s : string) : endsWith s s = true.
Proof. destruct s; cbn [endsWith]; by rewrite String.eqb_refl. Qed.

(** Every file of the list is classified as static. *)
Lemma is_static_file (u : string) : u ∈ STATIC_FILES -> is_static u = true.
Proof.
  intros Hin. unfold is_static. apply existsb_exists. exists u.
  split; [by apply list_elem_of_In|]. by rewrite endsWith_refl.
Qed.

(** What [fetch_all] returns when it succeeds. *)
Lemma fetch_all_Some (net : network) (urls : list string) :
  forall rs,
    fetch_all net urls = Some rs ->
    map fst rs = urls /\
    forall u r, (u, r) ∈ rs ->
      net (mkRequest "GET" u u) = Some r /\ ok r = true /\
      put_accepted r = true.
Proof.
  induction urls as [|u urls IH]; intros rs Hrs; simpl in Hrs.
  - injection Hrs as <-. split; [done|].
    intros u r Hin. by apply elem_of_nil in Hin.
  - destruct (net (mkRequest "GET" u u)) as [r|] eqn:Hnet; [|done].
    destruct (ok r) eqn:Hok; [|done].
    destruct (put_accepted r) eqn:Hacc; [|done]. simpl in Hrs.
    destruct (fetch_all net urls) as [rs'|]; [|done].
    injection Hrs as <-. destruct (IH rs' eq_refl) as [Hmap Hall].
    split; [simpl; by rewrite Hmap|].
    intros u' r' Hin. apply elem_of_cons in Hin as [[= -> ->]|Hin];
      [done|by apply Hall].
Qed.

End RouterMoreFacts.

Section RouterMore.
Import Router Samples.

(** The storage the listener leaves is the one it found, or the one it
    found with the response to this request stored in the current cache. *)
Lemma onFetch_caches_after (net : network) (cs : storage) (req : request) :
  caches_after (onFetch net cs req) = cs \/
  exists r,
    net req = Some r /\
    caches_after (onFetch net cs req) =
      cache_put CACHE_NAME (url req) r (caches_open CACHE_NAME cs).
Proof.
  unfold onFetch, cacheFirst, networkFirstApi, networkFirst.
  destruct (negb (method req =? "GET")); [by left|].
  destruct (is_static (pathname req)).
  - destruct (caches_match (url req) cs); [by left|].
    destruct (net req) as [r|]; [|by left]. right. by exists r.
  - destruct (startsWith (pathname req) "/api/").
    + destruct (net req) as [r|]; [|by left]. simpl.
      destruct (ok r); [|by left]. right. by exists r.
    + destruct (net req); by left.
Qed.

(** Handling a request never removes a cache, adds at most the current
    one, and changes what [caches.match] answers for no other URL than the
    request's own. Requests that are not GET are left to the browser, and
    GET requests that are neither static nor for the API never write to
    the cache. *)
Theorem onFetch_frame (net : network) (cs : storage) (req : request) :
  (forall key, key <> url req ->
     caches_match key (caches_after (onFetch net cs req)) =
     caches_match key cs) /\
  (caches_keys (caches_after (onFetch net cs req)) = caches_keys cs \/
   caches_keys (caches_after (onFetch net cs req)) =
     (caches_keys cs ++ [CACHE_NAME])%list) /\
  (method req <> "GET" ->
   onFetch net cs req = mkHandled NotIntercepted cs []) /\
  (is_static (pathname req) = false ->
   startsWith (pathname req) "/api/" = false ->
   caches_after (onFetch net cs req) = cs).
Proof.
  split; [|split; [|split]].
  - intros key Hkey.
    destruct (onFetch_caches_after net cs req) as [->|(r & _ & ->)];
      [done|].
    by rewrite caches_match_put_ne, caches_match_open.
  - destruct (onFetch_caches_after net cs req) as [->|(r & _ & ->)];
      [by left|].
    rewrite caches_keys_put. apply caches_open_keys_app.
  - intros Hm. unfold onFetch. apply String.eqb_neq in Hm. by rewrite Hm.
  - intros Hst Hapi. unfold onFetch, networkFirst. rewrite Hst, Hapi.
    destruct (negb (method req =? "GET")); [done|].
    by destruct (net req).
Qed.

Lemma onFetch_frame_witness :
  onFetch listing_net listing_cached
    (mkRequest "POST" "/api/sync" "/api/sync") =
  mkHandled NotIntercepted listing_cached [].
Proof.
  exact (proj1 (proj2 (proj2 (onFetch_frame listing_net listing_cached
                  (mkRequest "POST" "/api/sync" "/api/sync"))))
           ltac:(discriminate)).
Defined.

(** A static file that no cache holds is fetched: the response is served
    whatever its status. If the cache takes it (any status but 206, also
    a 404 or a 500), it is stored, and from then on the same request is
    answered from the cache without any fetch, whatever the network would
    say. If the cache refuses it, nothing is stored and the same request
    is fetched again. *)
Theorem static_fetched_once (net : network) (cs : storage) (req : request)
    (r : response) :
  method req = "GET" ->
  is_static (pathname req) = true ->
  caches_match (url req) cs = None ->
  net req = Some r ->
  reply (onFetch net cs req) = RespondWith (Some r) /\
  fetches (onFetch net cs req) = [req] /\
  (put_accepted r = true ->
   forall net',
     onFetch net' (caches_after (onFetch net cs req)) req =
     mkHandled (RespondWith (Some r)) (caches_after (onFetch net cs req))
               []) /\
  (put_accepted r = false ->
   caches_after (onFetch net cs req) = caches_open CACHE_NAME cs /\
   forall net',
     fetches (onFetch net' (caches_after (onFetch net cs req)) req) =
     [req]).
Proof.
  intros Hget Hstatic Hmiss Hnet.
  assert (Hfirst : onFetch net cs req =
            mkHandled (RespondWith (Some r))
              (cache_put CACHE_NAME (url req) r (caches_open CACHE_NAME cs))
              [req]).
  { unfold onFetch, cacheFirst. by rewrite Hget, Hstatic, Hmiss, Hnet. }
  rewrite Hfirst. simpl. split; [done|]. split; [done|]. split.
  - intros Hacc net'. unfold onFetch, cacheFirst. rewrite Hget, Hstatic.
    simpl.
    rewrite caches_match_put_new; [done|done| |apply caches_open_elem].
    by rewrite caches_match_open.
  - intros Hacc. rewrite (cache_put_refused _ _ _ _ Hacc).
    split; [done|]. intros net'. unfold onFetch, cacheFirst.
    rewrite Hget, Hstatic. simpl. rewrite caches_match_open, Hmiss.
    by destruct (net' req).
Qed.

Lemma static_fetched_once_witness :
  onFetch (fun _ => None)
    (caches_after
       (onFetch (fun _ => Some (mkResponse 500 None [] (Opaque "oops"))) []
                (mkRequest "GET" "/manifest.json" "/manifest.json")))
    (mkRequest "GET" "/manifest.json" "/manifest.json") =
  mkHandled (RespondWith (Some (mkResponse 500 None [] (Opaque "oops"))))
    (caches_after
       (onFetch (fun _ => Some (mkResponse 500 None [] (Opaque "oops"))) []
                (mkRequest "GET" "/manifest.json" "/manifest.json")))
    [].
Proof.
  exact (proj1 (proj2 (proj2 (static_fetched_once
           (fun _ => Some (mkResponse 500 None [] (Opaque "oops"))) []
           (mkRequest "GET" "/manifest.json" "/manifest.json")
           (mkResponse 500 None [] (Opaque "oops"))
           eq_refl ltac:(vm_compute; reflexivity) eq_refl eq_refl)))
           eq_refl (fun _ => None)).
Defined.

(** With only the current cache in place, an API request that matches no
    static file and is answered with an ok status and a response that the
    cache takes is answered with that same response when the network later
    fails; any other answer (another status, or a response that the cache
    refuses, such as a 206) is served but leaves the offline answer what
    it was. *)
Theorem api_fallback_is_last_ok (net : network) (cs : storage)
    (req : request) (r : response) :
  method req = "GET" ->
  startsWith (pathname req) "/api/" = true ->
  is_static (pathname req) = false ->
  (forall nc, nc ∈ cs -> fst nc = CACHE_NAME) ->
  net req = Some r ->
  reply (onFetch net cs req) = RespondWith (Some r) /\
  forall net', net' req = None ->
    reply (onFetch net' (caches_after (onFetch net cs req)) req) =
      if ok r && put_accepted r then RespondWith (Some r)
      else reply (onFetch net' cs req).
Proof.
  intros Hget Hapi Hstatic Hcur Hnet.
  assert (Hfirst : onFetch net cs req =
            mkHandled (RespondWith (Some r))
              (if ok r
               then cache_put CACHE_NAME (url req) r
                      (caches_open CACHE_NAME cs)
               else cs)
              [req]).
  { unfold onFetch, networkFirstApi. by rewrite Hget, Hstatic, Hapi, Hnet. }
  rewrite Hfirst. simpl. split; [done|]. intros net' Hoff.
  destruct (ok r); simpl; [|done].
  destruct (put_accepted r) eqn:Hacc.
  - unfold onFetch, networkFirstApi.
    rewrite Hget, Hstatic, Hapi, Hoff. simpl.
    destruct (caches_open_current CACHE_NAME cs Hcur) as [Hne Hall].
    by rewrite caches_match_put_current.
  - rewrite (cache_put_refused _ _ _ _ Hacc).
    unfold onFetch, networkFirstApi.
    rewrite Hget, Hstatic, Hapi, Hoff. simpl.
    by rewrite caches_match_open.
Qed.

Lemma api_fallback_is_last_ok_witness :
  reply (onFetch (fun _ => None)
           (caches_after
              (onFetch (fun _ => Some fresh_listing) [] health_request))
           health_request) =
  RespondWith (Some fresh_listing).
Proof.
  exact (proj2 (api_fallback_is_last_ok (fun _ => Some fresh_listing) []
           health_request fresh_listing eq_refl
           ltac:(vm_compute; reflexivity) ltac:(vm_compute; reflexivity)
           ltac:(intros nc Hin; by apply elem_of_nil in Hin)
           eq_refl) (fun _ => None) eq_refl).
Defined.

End RouterMore.

Section RouterInstall.
Import Router Samples.

(** Activation and storing a response can be done in either order. *)
Lemma activate_put (name key : string) (r : response) (cs : storage) :
  activate (cache_put name key r cs) = cache_put name key r (activate cs).
Proof.
  unfold cache_put. destruct (put_accepted r); [|done].
  rewrite !activate_filter.
  induction cs as [|[n c] cs IH]; [done|].
  simpl. destruct (n =? name) eqn:Hn; rewrite !filter_cons; simpl;
    destruct (decide (n = CACHE_NAME)); simpl; rewrite ?Hn; by rewrite IH.
Qed.

Lemma activate_fold_put (name : string) (rs : list (string * response)) :
  forall cs : storage,
    activate
      (fold_left (fun acc ur => cache_put name (fst ur) (snd ur) acc) rs cs) =
    fold_left (fun acc ur => cache_put name (fst ur) (snd ur) acc) rs
      (activate cs).
Proof.
  induction rs as [|[u r] rs IH]; intros cs; simpl; [done|].
  by rewrite IH, activate_put.
Qed.

Lemma filter_fst_absent (x : string) (l : storage) :
  x ∉ map fst l -> filter (fun nc => fst nc = x) l = [].
Proof.
  induction l as [|[n c] l IH]; intros Hx; [done|].
  simpl in Hx. apply not_elem_of_cons in Hx as [Hne Hx].
  rewrite filter_cons_False by (simpl; congruence). by apply IH.
Qed.

(** With unique names, the caches of a given name are one cache. *)
Lemma filter_fst_NoDup (x : string) (l : storage) :
  NoDup (map fst l) -> x ∈ map fst l ->
  exists c, filter (fun nc => fst nc = x) l = [(x, c)].
Proof.
  induction l as [|[n c] l IH]; intros Hnd Hin;
    [by apply elem_of_nil in Hin|].
  simpl in Hnd, Hin. apply NoDup_cons in Hnd as [Hfresh Hnd].
  destruct (decide (n = x)) as [->|Hne].
  - exists c. rewrite filter_cons_True by done.
    by rewrite filter_fst_absent.
  - rewrite filter_cons_False by done. apply IH; [done|].
    apply elem_of_cons in Hin as [Heq|Hin]; [congruence|done].
Qed.

Lemma fold_put_single (name : string) (rs : list (string * response)) :
  forall c : cache,
    (forall u r, (u, r) ∈ rs -> put_accepted r = true) ->
    fold_left (fun acc ur => cache_put name (fst ur) (snd ur) acc) rs
      [(name, c)] =
    [(name, fold_left (fun m ur => <[fst ur := snd ur]> m) rs c)].
Proof.
  induction rs as [|[u r] rs IH]; intros c Hacc; simpl; [done|].
  unfold cache_put at 2. rewrite (Hacc u r ltac:(by left)). simpl.
  rewrite String.eqb_refl. simpl. apply IH.
  intros u' r' Hin. apply (Hacc u' r'). by right.
Qed.

Lemma fold_insert_other (u : string) (rs : list (string * response)) :
  forall c : cache,
    u ∉ map fst rs ->
    fold_left (fun m ur => <[fst ur := snd ur]> m) rs c !! u = c !! u.
Proof.
  induction rs as [|[u0 r0] rs IH]; intros c Hu; simpl; [done|].
  simpl in Hu. apply not_elem_of_cons in Hu as [Hne Hu].
  rewrite IH by done. by rewrite lookup_insert_ne.
Qed.

Lemma fold_insert_lookup (u : string) (r : response)
    (rs : list (string * response)) :
  forall c : cache,
    NoDup (map fst rs) -> (u, r) ∈ rs ->
    fold_left (fun m ur => <[fst ur := snd ur]> m) rs c !! u = Some r.
Proof.
  induction rs as [|[u0 r0] rs IH]; intros c Hnd Hin;
    [by apply elem_of_nil in Hin|].
  simpl in Hnd. apply NoDup_cons in Hnd as [Hfresh Hnd]. simpl.
  apply elem_of_cons in Hin as [[= -> ->]|Hin].
  - rewrite fold_insert_other by done. by rewrite lookup_insert_eq.
  - by apply IH.
Qed.

(** What [caches.match] answers for a static file after a successful
    installation and the activation. *)
Lemma installed_caches_match (net : network) (cs : storage) (u : string) :
  NoDup (caches_keys cs) ->
  snd (install net cs) = true ->
  u ∈ STATIC_FILES ->
  exists r,
    net (mkRequest "GET" u u) = Some r /\ ok r = true /\
    caches_match u (activate (fst (install net cs))) = Some r.
Proof.
  intros Hnd Hok Hu. unfold install, cache_addAll in *.
  destruct (fetch_all net STATIC_FILES) as [rs|] eqn:Hrs; [|done].
  destruct (fetch_all_Some net STATIC_FILES rs Hrs) as [Hmap Hall].
  assert (Hin : exists r, (u, r) ∈ rs).
  { rewrite <- Hmap in Hu.
    apply list_elem_of_fmap in Hu as ([u' r] & -> & Hin). by exists r. }
  destruct Hin as [r Hin]. destruct (Hall u r Hin) as (Hnet & Hokr & _).
  exists r. split; [done|]. split; [done|]. simpl.
  rewrite activate_fold_put.
  destruct (caches_open_keys CACHE_NAME cs Hnd) as [Hcur Hnd'].
  rewrite (activate_filter (caches_open CACHE_NAME cs)).
  destruct (filter_fst_NoDup CACHE_NAME _ Hnd' Hcur) as [c ->].
  rewrite fold_put_single
    by (intros u' r' Hin'; by destruct (Hall u' r' Hin') as (_ & _ & ?)).
  simpl.
  rewrite fold_insert_lookup with (r := r); [done| |done].
  rewrite Hmap. apply (bool_decide_unpack _). vm_compute. reflexivity.
Qed.

(** After a successful installation and the activation, every static file
    is answered from the cache, with the response fetched at installation
    and without any fetch: the files are there when the network is not. *)
Theorem installed_files_served_from_cache (net : network) (cs : storage) :
  NoDup (caches_keys cs) ->
  snd (install net cs) = true ->
  forall u, u ∈ STATIC_FILES ->
    exists r,
      net (mkRequest "GET" u u) = Some r /\ ok r = true /\
      forall net',
        onFetch net' (activate (fst (install net cs)))
          (mkRequest "GET" u u) =
        mkHandled (RespondWith (Some r)) (activate (fst (install net cs))) [].
Proof.
  intros Hnd Hok u Hu.
  destruct (installed_caches_match net cs u Hnd Hok Hu)
    as (r & Hnet & Hokr & Hmatch).
  exists r. split; [done|]. split; [done|]. intros net'.
  unfold onFetch, cacheFirst. simpl.
  by rewrite (is_static_file u Hu), Hmatch.
Qed.

Lemma installed_files_served_from_cache_witness :
  exists r,
    onFetch (fun _ => None)
      (activate (fst (install (fun _ => Some stale_listing) old_caches)))
      (mkRequest "GET" "/offline.html" "/offline.html") =
    mkHandled (RespondWith (Some r))
      (activate (fst (install (fun _ => Some stale_listing) old_caches)))
      [].
Proof.
  assert (Hnd : NoDup (caches_keys old_caches)).
  { apply (bool_decide_unpack _). vm_compute. reflexivity. }
  destruct (installed_files_served_from_cache (fun _ => Some stale_listing)
              old_caches Hnd ltac:(vm_compute; reflexivity) "/offline.html"
              ltac:(do 2 apply list_elem_of_further; apply list_elem_of_here))
    as (r & _ & _ & H).
  exists r. exact (H (fun _ => None)).
Defined.

(** After a successful installation and the activation, a GET request
    that is neither static nor for the API, that the network fails and that
    no cache holds, is answered with the offline page fetched at
    installation. *)
Theorem offline_page_after_install (net net' : network) (cs : storage)
    (req : request) :
  NoDup (caches_keys cs) ->
  snd (install net cs) = true ->
  method req = "GET" ->
  is_static (pathname req) = false ->
  startsWith (pathname req) "/api/" = false ->
  net' req = None ->
  caches_match (url req) (activate (fst (install net cs))) = None ->
  exists page,
    net (mkRequest "GET" "/offline.html" "/offline.html") = Some page /\
    onFetch net' (activate (fst (install net cs))) req =
      mkHandled (RespondWith (Some page))
        (activate (fst (install net cs))) [req].
Proof.
  intros Hnd Hok Hget Hstatic Hapi Hoff Hmiss.
  destruct (installed_caches_match net cs "/offline.html" Hnd Hok
              ltac:(do 2 apply list_elem_of_further; apply list_elem_of_here))
    as (page & Hnet & _ & Hmatch).
  exists page. split; [done|].
  unfold onFetch, networkFirst.
  by rewrite Hget, Hstatic, Hapi, Hoff, Hmiss, Hmatch.
Qed.

Lemma offline_page_after_install_witness :
  exists page,
    onFetch (fun _ => None)
      (activate (fst (install (fun _ => Some stale_listing) old_caches)))
      (mkRequest "GET" "/interview" "/interview") =
    mkHandled (RespondWith (Some page))
      (activate (fst (install (fun _ => Some stale_listing) old_caches)))
      [mkRequest "GET" "/interview" "/interview"].
Proof.
  assert (Hnd : NoDup (caches_keys old_caches)).
  { apply (bool_decide_unpack _). vm_compute. reflexivity. }
  destruct (offline_page_after_install (fun _ => Some stale_listing)
              (fun _ => None) old_caches
              (mkRequest "GET" "/interview" "/interview") Hnd
              ltac:(vm_compute; reflexivity) eq_refl
              ltac:(vm_compute; reflexivity) ltac:(vm_compute; reflexivity)
              eq_refl ltac:(vm_compute; reflexivity)) as (page & _ & H).
  by exists page.
Defined.

End RouterInstall.

(** ** Retrying, and the order of the results *)

Section SyncRetry.
Import LocalDb Sync Samples.

Lemma store_get_inj (k : string) (s1 s2 : store) :
  store_get k s1 = store_get k s2 -> s1 !! k = s2 !! k.
Proof.
  unfold store_get.
  destruct (s1 !! k) as [[a1 b1 c1 d1]|], (s2 !! k) as [[a2 b2 c2 d2]|];
    simpl; intros H; try done.
  injection H as -> -> -> ->. done.
Qed.

Lemma res_uuid_unique (rs : list result) (r1 r2 : result) :
  NoDup (map res_uuid rs) -> r1 ∈ rs -> r2 ∈ rs ->
  res_uuid r1 = res_uuid r2 -> r1 = r2.
Proof.
  induction rs as [|r rs IH]; intros Hnd H1 H2 Heq;
    [by apply elem_of_nil in H1|].
  simpl in Hnd. apply NoDup_cons in Hnd as [Hfresh Hnd].
  assert (Hin : forall x, x ∈ rs -> res_uuid x ∈ map res_uuid rs).
  { intros x Hx. apply list_elem_of_fmap. by exists x. }
  apply elem_of_cons in H1 as [->|H1], H2 as [->|H2].
  - done.
  - exfalso. apply Hfresh. rewrite Heq. by apply Hin.
  - exfalso. apply Hfresh. rewrite <- Heq. by apply Hin.
  - by apply IH.
Qed.

(** With one result per uuid, what the results do to the record under a
    key depends on the results as a set only. *)
Lemma applyResults_get_set (v : variant) (rs : list result) (s : store)
    (k : string) (p : record) :
  NoDup (map res_uuid rs) ->
  store_get k s = Some p ->
  (exists r st, r ∈ rs /\ res_uuid r = k /\ newStatus v r = Some st /\
     store_get k (fst (applyResults v rs s None)) =
       Some (set_sync_status p st)) \/
  ((forall r, r ∈ rs -> res_uuid r = k -> newStatus v r = None) /\
   store_get k (fst (applyResults v rs s None)) = Some p).
Proof.
  intros Hnd Hp.
  destruct (applyResults_status v rs k s None p Hp) as (st & Hget & Hcase).
  destruct Hcase as [[-> Hall]|(r & Hin & Hk & Hst)].
  - right. by rewrite set_sync_status_same in Hget.
  - left. by exists r, st.
Qed.

Lemma applyResults_permutation (v : variant) (rs rs' : list result)
    (s : store) :
  NoDup (map res_uuid rs) ->
  rs ≡ₚ rs' ->
  fst (applyResults v rs s None) = fst (applyResults v rs' s None).
Proof.
  intros Hnd Hperm.
  assert (Hnd' : NoDup (map res_uuid rs')).
  { change (NoDup (res_uuid <$> rs')). rewrite <- Hperm. exact Hnd. }
  assert (Hmem : forall r, r ∈ rs <-> r ∈ rs').
  { intros r. by rewrite Hperm. }
  apply map_eq. intros k. apply store_get_inj.
  destruct (store_get k s) as [p|] eqn:Hp.
  - destruct (applyResults_get_set v rs s k p Hnd Hp)
      as [(r & st & Hin & Hk & Hst & ->)|[Hall ->]];
    destruct (applyResults_get_set v rs' s k p Hnd' Hp)
      as [(r' & st' & Hin' & Hk' & Hst' & ->)|[Hall' ->]].
    + apply Hmem in Hin'.
      assert (r = r') as <-
        by (apply (res_uuid_unique rs); congruence).
      congruence.
    + apply Hmem in Hin. rewrite (Hall' r Hin Hk) in Hst. done.
    + apply Hmem in Hin'. rewrite (Hall r' Hin' Hk') in Hst'. done.
    + done.
  - pose proof (applyResults_get_None v rs k s None) as H1.
    pose proof (applyResults_get_None v rs' k s None) as H2.
    apply H1 in Hp as Hp1. apply H2 in Hp as Hp2. congruence.
Qed.

(** With one result per uuid, the order in which the server lists the
    results does not matter for the store: two ok answers with the same
    results in different orders leave the same store. *)
Theorem results_order_irrelevant (v : variant) (net net' : network)
    (s : store) (status status' : Z) (rs rs' : list result) :
  net (getPendingTranscripts s) = FetchResponse status (Some rs) ->
  net' (getPendingTranscripts s) = FetchResponse status' (Some rs') ->
  ok status = true -> ok status' = true ->
  NoDup (map res_uuid rs) ->
  rs ≡ₚ rs' ->
  store_after (syncWithServer v net s) =
  store_after (syncWithServer v net' s).
Proof.
  intros Hnet Hnet' Hok Hok' Hnd Hperm.
  destruct (getPendingTranscripts s) as [|p ps] eqn:Hp.
  { unfold syncWithServer. by rewrite Hp. }
  assert (Hne : getPendingTranscripts s <> []) by (by rewrite Hp).
  rewrite <- Hp in Hnet, Hnet'.
  destruct (syncWithServer_ok v net s status rs Hne Hnet Hok) as (-> & _).
  destruct (syncWithServer_ok v net' s status' rs' Hne Hnet' Hok')
    as (-> & _).
  by apply applyResults_permutation.
Qed.

Lemma results_order_irrelevant_witness :
  store_after (syncWithServer ServiceWorker three_net three_pending) =
  store_after
    (syncWithServer ServiceWorker
       (fun _ => FetchResponse 201 (Some (rev three_results)))
       three_pending).
Proof.
  refine (results_order_irrelevant ServiceWorker three_net _ three_pending
            200 201 three_results (rev three_results)
            eq_refl eq_refl eq_refl eq_refl _ _).
  - apply (bool_decide_unpack _). vm_compute. reflexivity.
  - apply Permutation_rev.
Defined.

(** An attempt whose request fails is as if it had not been made: the
    next attempt finds the same pending records, posts the same batch and
    does what it would have done in the first place. *)
Theorem failed_attempt_is_transparent (v v' : variant) (net net' : network)
    (s : store) :
  net (getPendingTranscripts s) = FetchRejected \/
  (exists status body,
     net (getPendingTranscripts s) = FetchResponse status body /\
     ok status = false) ->
  syncWithServer v' net' (store_after (syncWithServer v net s)) =
  syncWithServer v' net' s.
Proof.
  intros Hfail.
  destruct (trySync_failure v _ s Hfail) as (e & Htry & _).
  assert (Hsame : store_after (syncWithServer v net s) = s).
  { unfold syncWithServer.
    destruct (length (getPendingTranscripts s) =? 0)%nat; [done|].
    by rewrite Htry. }
  by rewrite Hsame.
Qed.

Lemma failed_attempt_is_transparent_witness :
  syncWithServer ServiceWorker three_net
    (store_after (syncWithServer ServiceWorker
                    (fun _ => FetchResponse 503 None) three_pending)) =
  syncWithServer ServiceWorker three_net three_pending.
Proof.
  apply failed_attempt_is_transparent.
  right. exists 503%Z, None. split; reflexivity.
Defined.

End SyncRetry.
